(** * mini-mocha: the suite tree, the [.only] filter and the test runner

    A shallow embedding of [src/mini-mocha.js].  The registered forest
    ([tests]) is a list of nodes; [runSuite] and [runTests] are written in a
    small state-and-abort monad over the module-level variables of the
    script ([failureIndex], [failures]), the console, and the state of the
    host program that the user's callbacks read and write. *)

From Stdlib Require Import String Ascii Arith Bool Lia List.
From Stdlib Require Import Decimal DecimalString.
Import ListNotations.
Local Open Scope string_scope.
Local Open Scope list_scope.

Set Implicit Arguments.
Set Warnings "-register-all".

(** String concatenation, as the template literals of the source. *)
Infix "^^" := String.append (at level 60, right associativity).

(** ** Values a callback can throw *)

(** What the engine can observe of a value caught by [catch (err)]: reading
    [err.message] raises a [TypeError] when [err] is [undefined] or [null],
    and otherwise yields the field or [undefined] when the value has none
    (a primitive, or an object without that field).  The field, when
    present, is taken to be a string, as it is for every [Error]. *)
Inductive thrown : Type :=
| Nullish
| Raised (message : option string).

(** [m || d] for a string-or-undefined [m]: the empty string is falsy. *)
Definition or_default (m : option string) (d : string) : string :=
  match m with
  | Some s => if String.eqb s "" then d else s
  | None => d
  end.

Section Engine.

(** The host program's state: whatever the user's callbacks share. *)
Variable W : Type.

(** A deferred computation ([fn], a hook): awaited to completion, it
    changes the host state and either resolves ([None]) or throws/rejects
    with a value.  A callback that never settles would stall the run; such
    callbacks are not modelled. *)
Definition callback : Type := W -> W * option thrown.

(** ** The suite tree *)

(** [{ name, fn, only }] and
    [{ name, tests, beforeEachHooks, parent, only }]; [parent] is never read
    by the runner.  [fn] is stored as it was given: [it("p")] leaves it
    [undefined], and the runner only ever reads it as a condition before
    it calls it, so [None] stands for [undefined] and for every other
    falsy second argument.  A second argument that is truthy and is not a
    function is a callback that throws the [TypeError] of the call, and so
    is a hook that is not a function: a hook is never read as a condition,
    only called, inside the [try]. *)
Inductive node : Type :=
| Test (name : string) (fn : option callback) (only : bool)
| Suite (name : string) (tests : list node) (beforeEachHooks : list callback)
        (only : bool).

Definition node_name (t : node) : string :=
  match t with Test n _ _ => n | Suite n _ _ _ => n end.

(** [t.only], read as a condition ([undefined] is falsy). *)
Definition node_only (t : node) : bool :=
  match t with Test _ _ o => o | Suite _ _ _ o => o end.

(** [t.fn], read as a condition. *)
Definition has_fn (t : node) : bool :=
  match t with Test _ (Some _) _ => true | _ => false end.

(** [t.tests], read as a condition (an empty array is truthy). *)
Definition has_tests (t : node) : bool :=
  match t with Test _ _ _ => false | Suite _ _ _ _ => true end.

(** [t.tests] where it is an array, [[]] standing for the places where the
    source guards the access with [t.tests &&]. *)
Definition node_tests (t : node) : list node :=
  match t with Test _ _ _ => [] | Suite _ ts _ _ => ts end.

Definition node_hooks (t : node) : list callback :=
  match t with Test _ _ _ => [] | Suite _ _ hs _ => hs end.

(** ** Registration (lines 9-43)

    The calls made while the test files are loaded, in program order; the
    body of a [describe] is the list of the calls its function makes.
    [describe] pushes the new suite on the open suite (or on [tests]) and
    opens it while its body runs, so each call lands in the innermost
    enclosing [describe].  The second argument of [it] is stored as it is
    given, a function or nothing.  The second argument of [describe] is
    called on the spot (lines 15 and 41): it is taken to be a function
    that returns; a [describe] without one throws there and stops the
    loading of the file. *)
Inductive registration : Type :=
| it (name : string) (fn : option callback)
| it_only (name : string) (fn : option callback)
| describe (name : string) (body : list registration)
| describe_only (name : string) (body : list registration)
| beforeEach (fn : callback).

(** The hooks pushed on a suite by its body; nested bodies push on their
    own suite. *)
Definition hooks_of (body : list registration) : list callback :=
  flat_map (fun r => match r with beforeEach fn => [fn] | _ => [] end) body.

(** What one call pushes on the open suite; [beforeEach] pushes no node,
    and outside any suite it does nothing at all. *)
Fixpoint register (r : registration) : list node :=
  match r with
  | it name fn => [Test name fn false]
  | it_only name fn => [Test name fn true]
  | describe name body =>
      [Suite name (flat_map register body) (hooks_of body) false]
  | describe_only name body =>
      [Suite name (flat_map register body) (hooks_of body) true]
  | beforeEach _ => []
  end.

(** The module-level [tests] after the calls. *)
Definition registered (calls : list registration) : list node :=
  flat_map register calls.

(** ** The filter (lines 46-57 and 101-107) *)

(** [l.some((t) => t.only || (t.tests && t.tests.some((nested) => nested.only)))] *)
Definition hasOnly (l : list node) : bool :=
  existsb (fun t => node_only t || (has_tests t && existsb node_only (node_tests t))) l.

Definition isOnly (suite : node) (only : bool) : bool :=
  hasOnly (node_tests suite) || only.

(** [suite.tests.filter((t) => t.fn && (!isOnly || t.only))] *)
Definition testCases (suite : node) (only : bool) : list node :=
  filter (fun t => has_fn t && (negb (isOnly suite only) || node_only t))
         (node_tests suite).

(** [l.filter((t) => !t.fn)] *)
Definition subSuites (l : list node) : list node :=
  filter (fun t => negb (has_fn t)) l.

(** Lines 54-57; the inner tests are made on the children of each
    sub-suite, with the [only] received, not [isOnly]. *)
Definition hasRunnableTests (suite : node) (only : bool) : bool :=
  Nat.ltb 0 (List.length (testCases suite only)) ||
  existsb (fun subSuite =>
             let subSuiteResult :=
               has_tests subSuite &&
               existsb (fun nested => has_fn nested || has_tests nested)
                       (node_tests subSuite) in
             subSuiteResult &&
             (negb only || existsb node_only (node_tests subSuite)))
          (subSuites (node_tests suite)).

(** ** Runner state *)

Record failure : Type := mkFailure {
  index : nat;
  fname : string;
  message : string;
  findent : nat;
  details : string
}.

(** Events of the run, kept beside the program's own state so that the
    order of invocations can be stated: a suite got past the
    runnable-content check, the loop body started for a test, a hook or a
    test function was awaited. *)
Inductive event : Type :=
| EnterSuite (name : string)
| StartTest (name : string)
| CallHook (suite : string) (k : nat)
| CallFn (test : string).

Record state : Type := mkState {
  world : W;
  out : list string;          (* lines passed to console.log, oldest first *)
  failureIndex : nat;
  failures : list failure;
  trace : list event
}.

Definition initial (w : W) : state :=
  mkState w [] 1 [] [].

(** ** The monad: state, plus an exception that escapes the runner *)

Inductive outcome (A : Type) : Type :=
| Done (a : A) (st : state)
| Abort (st : state).   (* a TypeError left the function: the promise rejects *)

Arguments Abort {A} st.

Definition M (A : Type) : Type := state -> outcome A.

Definition ret {A} (a : A) : M A := fun st => Done a st.

Definition bind {A B} (m : M A) (k : A -> M B) : M B :=
  fun st => match m st with
            | Done a st' => k a st'
            | Abort st' => Abort st'
            end.

Definition type_error {A} : M A := fun st => Abort st.

Notation "x <- m ;; k" := (bind m (fun x => k))
  (at level 61, m at next level, right associativity).
Notation "m ;; k" := (bind m (fun _ => k))
  (at level 61, right associativity).

(** The updates of the state, one field at a time. *)
Definition print (line : string) (st : state) : state :=
  mkState (world st) (out st ++ [line]) (failureIndex st) (failures st) (trace st).

Definition log (e : event) (st : state) : state :=
  mkState (world st) (out st) (failureIndex st) (failures st) (trace st ++ [e]).

Definition push (f : failure) (st : state) : state :=
  mkState (world st) (out st) (failureIndex st) (failures st ++ [f]) (trace st).

Definition bump (st : state) : state :=
  mkState (world st) (out st) (S (failureIndex st)) (failures st) (trace st).

Definition set_world (w : W) (st : state) : state :=
  mkState w (out st) (failureIndex st) (failures st) (trace st).

Definition console_log (line : string) : M unit :=
  fun st => Done tt (print line st).

Definition record_event (e : event) : M unit :=
  fun st => Done tt (log e st).

Definition get_failureIndex : M nat :=
  fun st => Done (failureIndex st) st.

Definition failures_push (f : failure) : M unit :=
  fun st => Done tt (push f st).

Definition failureIndex_incr : M unit :=
  fun st => Done tt (bump st).

(** [await f()]: the value thrown, if any. *)
Definition await (f : callback) : M (option thrown) :=
  fun st => Done (snd (f (world st))) (set_world (fst (f (world st))) st).

(** ** Strings *)

Definition nl : string := String (ascii_of_nat 10) "".

Fixpoint repeat_string (s : string) (n : nat) : string :=
  match n with
  | 0 => ""
  | S n' => s ^^ repeat_string s n'
  end.

Definition string_of_nat (n : nat) : string :=
  NilEmpty.string_of_uint (Nat.to_uint n).

Definition assertion_prefix : string := "AssertionError [ERR_ASSERTION]: ".

(** ** runSuite (lines 45-96) *)

Record result : Type := mkResult { passed : nat; failed : nat }.

(** [for (const hook of suite.beforeEachHooks) await hook();] inside the
    [try]: stops at the first hook that throws. *)
Fixpoint run_hooks (sname : string) (k : nat) (hooks : list callback)
  : M (option thrown) :=
  match hooks with
  | [] => ret None
  | hook :: rest =>
      record_event (CallHook sname k) ;;
      r <- await hook ;;
      match r with
      | Some err => ret (Some err)
      | None => run_hooks sname (S k) rest
      end
  end.

(** The [catch (err)] block of [runSuite], but for [failed++]: the line
    of the failure is printed, then the object literal passed to
    [failures.push] reads [err.message]. *)
Definition suite_catch (indent : nat) (name : string) (err : thrown) : M unit :=
  i <- get_failureIndex ;;
  console_log (repeat_string "  " (indent + 1) ^^ string_of_nat i ^^ ") " ^^ name) ;;
  match err with
  | Nullish => type_error
  | Raised m =>
      failures_push (mkFailure i name (or_default m "undefined") (indent + 1)
                               (assertion_prefix ^^ or_default m "No message")) ;;
      failureIndex_incr
  end.

(** [await test.fn()].  A node without [fn] never reaches the loops (both
    filter on [t.fn]); calling [undefined] would throw a [TypeError] inside
    the [try]. *)
Definition call_fn (test : node) : M (option thrown) :=
  match test with
  | Test name (Some fn) _ => record_event (CallFn name) ;; await fn
  | _ => ret (Some (Raised (Some "test.fn is not a function")))
  end.

(** The [try] block of [runSuite] up to the call of [test.fn]: the value
    caught, if any. *)
Definition suite_try (suite test : node) : M (option thrown) :=
  h <- run_hooks (node_name suite) 0 (node_hooks suite) ;;
  match h with
  | Some err => ret (Some err)
  | None => call_fn test
  end.

(** One iteration of [for (const test of testCases)]; [acc] holds the
    local counters [passed] and [failed]. *)
Definition run_testCase (suite : node) (indent : nat) (test : node)
           (acc : result) : M result :=
  record_event (StartTest (node_name test)) ;;
  r <- suite_try suite test ;;
  match r with
  | None =>
      console_log (repeat_string "  " (indent + 1) ^^ "✓ " ^^ node_name test) ;;
      ret (mkResult (S (passed acc)) (failed acc))
  | Some err =>
      suite_catch indent (node_name test) err ;;
      ret (mkResult (passed acc) (S (failed acc)))
  end.

Fixpoint for_each {A B : Type} (body : A -> B -> M B) (l : list A) (acc : B)
  : M B :=
  match l with
  | [] => ret acc
  | x :: rest => acc' <- body x acc ;; for_each body rest acc'
  end.

Definition add_result (acc r : result) : result :=
  mkResult (passed acc + passed r) (failed acc + failed r).

(** A loop over [l.filter(p)], with the filter fused into the loop so that
    the recursion of [runSuite] through it is structural; see
    [for_each_where_filter]. *)
Fixpoint for_each_where {A B : Type} (p : A -> bool) (body : A -> B -> M B)
         (l : list A) (acc : B) : M B :=
  match l with
  | [] => ret acc
  | x :: rest =>
      if p x then acc' <- body x acc ;; for_each_where p body rest acc'
      else for_each_where p body rest acc
  end.

Fixpoint runSuite (suite : node) (indent : nat) (only : bool) {struct suite}
  : M result :=
  match suite with
  | Test _ _ _ => type_error      (* suite.tests is undefined: line 46 throws *)
  | Suite name tests _ _ =>
      if negb (hasRunnableTests suite only) then ret (mkResult 0 0)
      else
        console_log (repeat_string "  " indent ^^ name) ;;
        record_event (EnterSuite name) ;;
        acc <- for_each (run_testCase suite indent) (testCases suite only)
                        (mkResult 0 0) ;;
        for_each_where (fun t => negb (has_fn t))
          (fun subSuite acc' =>
             subResult <- runSuite subSuite (indent + 1) (isOnly suite only) ;;
             ret (add_result acc' subResult))
          tests acc
  end.

(** ** runTests (lines 100-146) *)

Definition topLevelTests (tests : list node) : list node :=
  filter has_fn tests.

(** The [catch (err)] block of the top-level loop, but for
    [totalFailed++]. *)
Definition top_catch (name : string) (err : thrown) : M unit :=
  i <- get_failureIndex ;;
  console_log ("  " ^^ string_of_nat i ^^ ") " ^^ name) ;;
  match err with
  | Nullish => type_error
  | Raised m =>
      failures_push (mkFailure i name (or_default m "undefined") 0
                               (assertion_prefix ^^ or_default m "No message")) ;;
      failureIndex_incr
  end.

(** One iteration of [for (const test of topLevelTests)]; [acc] holds
    [totalPassed] and [totalFailed]. *)
Definition run_topLevelTest (isOnly : bool) (test : node) (acc : result)
  : M result :=
  if isOnly && negb (node_only test) then ret acc
  else
    record_event (StartTest (node_name test)) ;;
    r <- call_fn test ;;
    match r with
    | None =>
        console_log ("✓ " ^^ node_name test) ;;
        ret (mkResult (S (passed acc)) (failed acc))
    | Some err =>
        top_catch (node_name test) err ;;
        ret (mkResult (passed acc) (S (failed acc)))
    end.

(** The two [console.log] calls made for one entry of [failures]. *)
Definition print_failure (f : failure) : M unit :=
  console_log (nl ^^ "  " ^^ string_of_nat (index f) ^^ ") " ^^ fname f ^^ ":" ^^ nl) ;;
  console_log ("      " ^^ details f).

Fixpoint print_failures (l : list failure) : M unit :=
  match l with
  | [] => ret tt
  | f :: rest => print_failure f ;; print_failures rest
  end.

(** Lines 137-145: the summary, and the block of failures read from the
    module-level list. *)
Definition report (total : result) : M unit :=
  console_log (nl ^^ "  " ^^ string_of_nat (passed total) ^^ " passing") ;;
  if Nat.ltb 0 (failed total) then
    console_log ("  " ^^ string_of_nat (failed total) ^^ " failing") ;;
    fun st => print_failures (failures st) st
  else ret tt.

(** [runTests] prints its totals; here it also returns them. *)
Definition runTests (tests : list node) : M result :=
  let isOnly := hasOnly tests in
  acc <- for_each (run_topLevelTest isOnly) (topLevelTests tests)
                  (mkResult 0 0) ;;
  total <- for_each (fun suite acc' =>
                       suiteResult <- runSuite suite 1 isOnly ;;
                       ret (add_result acc' suiteResult))
                    (subSuites tests) acc ;;
  report total ;;
  ret total.

(** The lines that [report] prints, as a function of the totals and of the
    list of failures. *)
Definition failure_lines (f : failure) : list string :=
  [nl ^^ "  " ^^ string_of_nat (index f) ^^ ") " ^^ fname f ^^ ":" ^^ nl;
   "      " ^^ details f].

Definition report_lines (total : result) (fs : list failure) : list string :=
  (nl ^^ "  " ^^ string_of_nat (passed total) ^^ " passing")
  :: (if Nat.ltb 0 (failed total)
      then ("  " ^^ string_of_nat (failed total) ^^ " failing")
           :: flat_map failure_lines fs
      else []).

(** ** Reading a run *)

(** The state a run leaves behind, whether it returned or was aborted. *)
Definition final {A} (o : outcome A) : state :=
  match o with Done _ st => st | Abort st => st end.

Definition completed {A} (o : outcome A) : Prop :=
  exists a st, o = Done a st.

(** The part of the event log that says which nodes were executed, without
    the callbacks awaited for them. *)
Definition is_visit (e : event) : bool :=
  match e with
  | EnterSuite _ | StartTest _ => true
  | CallHook _ _ | CallFn _ => false
  end.

Definition visits (l : list event) : list event := filter is_visit l.

Definition start_of (t : node) : event := StartTest (node_name t).

(** *** Execution order, stated on the tree

    Sibling cases first, as a batch and in registration order, then
    sibling groups in registration order, each under the same rule.  A
    case has the empty order as a group, so the [flat_map] over all the
    children only collects the nested groups. *)
Fixpoint suite_order (only : bool) (s : node) : list event :=
  match s with
  | Test _ _ _ => []
  | Suite name tests _ _ =>
      if hasRunnableTests s only then
        EnterSuite name :: map start_of (testCases s only)
                   ++ flat_map (suite_order (isOnly s only)) tests
      else []
  end.

(** The top-level cases that the first loop of [runTests] does not skip. *)
Definition topLevelRun (tests : list node) : list node :=
  filter (fun t => negb (hasOnly tests && negb (node_only t)))
         (topLevelTests tests).


(** *** Counting, stated on the tree

    The cases that the code selects, with the filter of lines 46-59 as it
    is written: those of [testCases], in the groups that pass the check
    [hasRunnableTests].  Both look one or two levels down only; the
    selection that the specification describes is [spec_runnable_total]
    below. *)
Fixpoint suite_runnable (only : bool) (s : node) : nat :=
  match s with
  | Test _ _ _ => 0
  | Suite _ tests _ _ =>
      if hasRunnableTests s only then
        List.length (testCases s only)
        + list_sum (map (suite_runnable (isOnly s only)) tests)
      else 0
  end.

Definition forest_runnable (tests : list node) : nat :=
  List.length (topLevelRun tests)
  + list_sum (map (suite_runnable (hasOnly tests)) (subSuites tests)).

(** *** The calls of [runSuite] made in a run of [runTests] *)
Inductive invoked (tests : list node) : node -> bool -> Prop :=
| invoked_top s :
    In s (subSuites tests) ->
    invoked tests s (hasOnly tests)
| invoked_sub parent only s :
    invoked tests parent only ->
    hasRunnableTests parent only = true ->
    In s (subSuites (node_tests parent)) ->
    invoked tests s (isOnly parent only).

(** *** What the specification asks of the filter *)

(** Some node of the subtree, at any depth, is marked [only]. *)
Fixpoint any_only (t : node) : bool :=
  match t with
  | Test _ _ o => o
  | Suite _ tests _ o => o || existsb any_only tests
  end.

(** Runnable content somewhere in the subtree, computed bottom-up: a case
    that passes the filter, here or in a nested group at any depth. *)
Fixpoint has_runnable_content (only : bool) (s : node) : bool :=
  match s with
  | Test _ _ _ => false
  | Suite _ tests _ _ =>
      Nat.ltb 0 (List.length (testCases s only))
      || existsb (has_runnable_content (isOnly s only)) tests
  end.

(** *** The Filter Resolver, in the words of the specification

    These definitions follow section 4.2 of the specification, not the
    source.  Exclusive mode is active for a group when the group is
    marked, when the mode was inherited, or when a direct child is marked;
    when it is active the runnable cases of the group are its marked
    cases, and otherwise all its cases; the nested groups are traversed
    with the mode passed down. *)
Definition spec_active (inherited : bool) (g : node) : bool :=
  node_only g || inherited || existsb node_only (node_tests g).

Definition spec_runnable_cases (active : bool) (children : list node)
  : list node :=
  filter (fun c => has_fn c && (negb active || node_only c)) children.

Fixpoint spec_runnable_count (inherited : bool) (g : node) : nat :=
  match g with
  | Test _ _ _ => 0
  | Suite _ children _ _ =>
      let active := spec_active inherited g in
      List.length (spec_runnable_cases active children)
      + list_sum (map (spec_runnable_count active) children)
  end.

(** Global activation: some node, at any depth, is marked. *)
Definition spec_global (tests : list node) : bool := existsb any_only tests.

(** The number of runnable cases of a forest. *)
Definition spec_runnable_total (tests : list node) : nat :=
  List.length (spec_runnable_cases (spec_global tests) tests)
  + list_sum (map (spec_runnable_count (spec_global tests)) tests).

(** *** The calls, stated on the host state

    The hooks in registration order, up to and including the first that
    throws; the boolean says whether one threw. *)
Fixpoint hooks_effect (hooks : list callback) (w : W) : W * bool :=
  match hooks with
  | [] => (w, false)
  | h :: rest =>
      match snd (h w) with
      | Some _ => (fst (h w), true)
      | None => hooks_effect rest (fst (h w))
      end
  end.

(** One case guarded by [hooks]: the hooks, then the action of the case
    unless a hook threw. *)
Definition case_effect (hooks : list callback) (test : node) (w : W) : W :=
  if snd (hooks_effect hooks w) then fst (hooks_effect hooks w)
  else match test with
       | Test _ (Some fn) _ => fst (fn (fst (hooks_effect hooks w)))
       | _ => fst (hooks_effect hooks w)
       end.

(** The cases in the order of section 3 of the specification, each with
    the hooks that guard it: among siblings the cases first, in
    registration order, each with the hooks of the group it is a direct
    child of; then the nested groups in registration order, each under
    the same rule.  A case has the empty schedule as a group, so the
    [flat_map] over all the children only collects the nested groups. *)
Fixpoint suite_schedule (only : bool) (s : node)
  : list (list callback * node) :=
  match s with
  | Test _ _ _ => []
  | Suite _ tests hooks _ =>
      if hasRunnableTests s only then
        map (pair hooks) (testCases s only)
        ++ flat_map (suite_schedule (isOnly s only)) tests
      else []
  end.


(** The host state after the cases of a schedule, one after the other. *)
Definition run_schedule (sched : list (list callback * node)) (w : W) : W :=
  fold_left (fun w' x => case_effect (fst x) (snd x) w') sched w.

(** *** The report of a group, stated on the tree

    The line of an executed case: the pass mark, or a failure index. *)
Definition case_line (pad : string) (test : node) (line : string) : Prop :=
  line = pad ^^ "✓ " ^^ node_name test \/
  exists i, line = pad ^^ string_of_nat i ^^ ") " ^^ node_name test.

(** One line for the group, one per case of [testCases], then the reports
    of the nested groups, one level deeper. *)
Inductive suite_report : nat -> bool -> node -> list string -> Prop :=
| report_skipped indent only s :
    hasRunnableTests s only = false ->
    suite_report indent only s []
| report_run indent only s lines subs :
    hasRunnableTests s only = true ->
    Forall2 (case_line (repeat_string "  " (indent + 1))) (testCases s only) lines ->
    Forall2 (suite_report (indent + 1) (isOnly s only))
            (subSuites (node_tests s)) subs ->
    suite_report indent only s
                 ((repeat_string "  " indent ^^ node_name s) :: lines ++ concat subs).

(** *** Callbacks that never throw [undefined] or [null] *)
Definition gentle (f : callback) : Prop :=
  forall w, snd (f w) <> Some Nullish.

(** A subtree in which every case was registered with a function and no
    callback ever throws [undefined] or [null]. *)
Inductive gentle_node : node -> Prop :=
| gentle_test name fn only :
    gentle fn -> gentle_node (Test name (Some fn) only)
| gentle_suite name tests hooks only :
    Forall gentle hooks -> Forall gentle_node tests ->
    gentle_node (Suite name tests hooks only).

(** ** A run observed on one channel, up to an abort

    [chan] reads a list out of the state (the log, the visits) that a run
    only ever extends.  [produces o st G]: the run [o] started in [st]
    extended the channel by an initial part of a word of [G], and by a
    whole word when it returned. *)
Section Channel.
Variable X : Type.
Variable chan : state -> list X.

Definition produces {A} (o : outcome A) (st : state) (G : list X -> Prop)
  : Prop :=
  exists tr rest,
    chan (final o) = chan st ++ tr /\
    G (tr ++ rest) /\
    (completed o -> rest = []).

Definition cat (G1 G2 : list X -> Prop) : list X -> Prop :=
  fun t => exists t1 t2, t = t1 ++ t2 /\ G1 t1 /\ G2 t2.

Definition cat_each {T} (G : T -> list X -> Prop) (l : list T)
  : list X -> Prop :=
  fun t => exists ts, Forall2 G l ts /\ t = concat ts.
End Channel.

End Engine.

Arguments Test {W} name fn only.
Arguments Suite {W} name tests beforeEachHooks only.
Arguments Done {W A} a st.
Arguments Abort {W A} st.
Arguments it {W} name fn.
Arguments it_only {W} name fn.
Arguments describe {W} name body.
Arguments describe_only {W} name body.
Arguments beforeEach {W} fn.
Arguments start_of {W} t.
Arguments node_name {W} t.
Arguments node_only {W} t.
Arguments has_fn {W} t.
Arguments has_tests {W} t.
Arguments any_only {W} t.
Arguments gentle {W} f.
Arguments gentle_node {W} _.

(** ** Concrete forests

    Callbacks over a host program without state. *)

Definition passes : callback unit := fun w => (w, None).

(** [() => { throw new Error(m) }] *)
Definition fails_with (m : string) : callback unit :=
  fun w => (w, Some (Raised (Some m))).

(** [() => { throw {} }]: a value without a [message] field. *)
Definition throws_bare : callback unit := fun w => (w, Some (Raised None)).

(** [() => { throw undefined }], or [() => Promise.reject()]. *)
Definition throws_undefined : callback unit := fun w => (w, Some Nullish).

(** [it("a"); describe("G", () => { it("b"); it("c") })], [b] failing
    with the message [boom]. *)
Definition scenario : list (node unit) :=
  [Test "a" (Some passes) false;
   Suite "G" [Test "b" (Some (fails_with "boom")) false;
              Test "c" (Some passes) false] [] false].

(** An [it.only] at depth three, beside a plain top-level case. *)
Definition forest_deep_only : list (node unit) :=
  [Test "a" (Some passes) false;
   Suite "G1" [Suite "G2" [Test "x" (Some passes) true] [] false] [] false].

(** A group whose only marked node is a grandchild. *)
Definition group_grandchild : node unit :=
  Suite "G" [Test "a" (Some passes) false;
             Suite "H" [Test "x" (Some passes) true] [] false] [] false.

(** Three nested groups and no case at all. *)
Definition group_hollow : node unit :=
  Suite "G" [Suite "H" [Suite "K" [] [] false] [] false] [] false.

(** An [it.only] three groups down. *)
Definition group_deep_exclusive : node unit :=
  Suite "G" [Suite "H" [Suite "K" [Test "c" (Some passes) true] [] false]
                        [] false]
        [] false.

(** [beforeEach(() => { throw undefined }); beforeEach(h2); it("c1")] *)
Definition group_hook_undefined : node unit :=
  Suite "G" [Test "c1" (Some passes) false] [throws_undefined; passes] false.

(** Two hooks and a case [c1], and a nested group with a case of its own
    and no hook. *)
Definition group_two_hooks : node unit :=
  Suite "G" [Suite "N" [Test "d" (Some passes) false] [] false;
             Test "c1" (Some passes) false]
        [passes; passes] false.

Definition forest_bare : list (node unit) :=
  [Test "t" (Some throws_bare) false].

Definition forest_empty_message : list (node unit) :=
  [Test "t" (Some (fails_with "")) false].

(** A group with one marked case, one plain case and a plain nested
    group. *)
Definition group_marked_case : node unit :=
  Suite "G" [Test "a" (Some passes) false; Test "b" (Some passes) true;
             Suite "H" [Test "x" (Some passes) false] [] false] [] false.

(** [CaseA, GroupB, CaseC] as registered, and with the cases first. *)
Definition forest_interleaved : list (node unit) :=
  [Test "A" (Some passes) false;
   Suite "B" [Test "b1" (Some passes) false] [] false;
   Test "C" (Some passes) false].


(** * The registration functions, on the objects they mutate (lines 3-43)

    The suites are objects that [describe] creates and that the later
    calls mutate in place, through [currentSuite] and through the [tests]
    array of the parent, which holds the same object.  The store keeps
    each suite object once, under the number of its creation; an array of
    tests holds case objects and references to suite objects. *)

Section Registry.

Variable W : Type.

Inductive entry : Type :=
| ECase (name : string) (fn : option (callback W)) (only : bool)
| ERef (id : nat).

(** [{ name, tests, beforeEachHooks, parent, only }] *)
Record suite_object : Type := mkSuiteObject {
  so_name : string;
  so_tests : list entry;
  so_hooks : list (callback W);
  so_parent : option nat;
  so_only : bool
}.

(** The store, and the module-level [tests] and [currentSuite]. *)
Record registry : Type := mkRegistry {
  heap : list suite_object;
  reg_tests : list entry;
  currentSuite : option nat
}.

Definition empty_registry : registry := mkRegistry [] [] None.

(** The object at [i] replaced by [f] of it; no object, no change. *)
Fixpoint update {A : Type} (i : nat) (f : A -> A) (l : list A) : list A :=
  match l, i with
  | [], _ => []
  | x :: l', 0 => f x :: l'
  | x :: l', S i' => x :: update i' f l'
  end.

(** [o.tests.push(...es)] and [o.beforeEachHooks.push(...hs)]. *)
Definition extend (es : list entry) (hs : list (callback W))
           (o : suite_object) : suite_object :=
  mkSuiteObject (so_name o) (so_tests o ++ es) (so_hooks o ++ hs)
                (so_parent o) (so_only o).

(** [if (target) target.tests.push(e); else tests.push(e);] *)
Definition push_entry (target : option nat) (e : entry) (r : registry)
  : registry :=
  match target with
  | Some id => mkRegistry (update id (extend [e] []) (heap r)) (reg_tests r)
                          (currentSuite r)
  | None => mkRegistry (heap r) (reg_tests r ++ [e]) (currentSuite r)
  end.

(** [it] and [it.only] (lines 19-23 and 29-33). *)
Definition call_it (name : string) (fn : option (callback W)) (only : bool)
           (r : registry) : registry :=
  push_entry (currentSuite r) (ECase name fn only) r.

(** [beforeEach] (lines 25-27). *)
Definition call_beforeEach (fn : callback W) (r : registry) : registry :=
  match currentSuite r with
  | Some id => mkRegistry (update id (extend [] [fn]) (heap r)) (reg_tests r)
                          (currentSuite r)
  | None => r
  end.

(** [describe] and [describe.only] up to the call of the body (lines 10-13
    and 36-39): the new object becomes [currentSuite] and is pushed on its
    parent, or on [tests]. *)
Definition open_suite (name : string) (only : bool) (r : registry) : registry :=
  let parentSuite := currentSuite r in
  let id := length (heap r) in
  push_entry parentSuite (ERef id)
             (mkRegistry (heap r ++ [mkSuiteObject name [] [] parentSuite only])
                         (reg_tests r) (Some id)).

(** [currentSuite = parentSuite] (lines 16 and 42). *)
Definition close_suite (parentSuite : option nat) (r : registry) : registry :=
  mkRegistry (heap r) (reg_tests r) parentSuite.

(** One registration call; the body of a [describe] is run between the
    opening and the closing of its suite. *)
Fixpoint exec (c : registration W) (r : registry) : registry :=
  match c with
  | it name fn => call_it name fn false r
  | it_only name fn => call_it name fn true r
  | beforeEach fn => call_beforeEach fn r
  | describe name body =>
      close_suite (currentSuite r)
                  (fold_left (fun r' c' => exec c' r') body
                             (open_suite name false r))
  | describe_only name body =>
      close_suite (currentSuite r)
                  (fold_left (fun r' c' => exec c' r') body
                             (open_suite name true r))
  end.

Definition exec_all (calls : list (registration W)) (r : registry) : registry :=
  fold_left (fun r' c' => exec c' r') calls r.

(** The registry once the test files are loaded. *)
Definition load (calls : list (registration W)) : registry :=
  exec_all calls empty_registry.

(** *** Reading the objects as a tree

    The runner follows the references; [fuel] bounds the depth, and a
    missing object or a depth beyond the fuel gives [None]. *)
Fixpoint traverse {A B : Type} (f : A -> option B) (l : list A)
  : option (list B) :=
  match l with
  | [] => Some []
  | x :: l' =>
      match f x, traverse f l' with
      | Some y, Some ys => Some (y :: ys)
      | _, _ => None
      end
  end.

Fixpoint resolve (fuel : nat) (h : list suite_object) (e : entry)
  : option (node W) :=
  match e with
  | ECase name fn only => Some (Test name fn only)
  | ERef id =>
      match fuel with
      | 0 => None
      | S fuel' =>
          match nth_error h id with
          | None => None
          | Some o =>
              match traverse (resolve fuel' h) (so_tests o) with
              | Some ts => Some (Suite (so_name o) ts (so_hooks o) (so_only o))
              | None => None
              end
          end
      end
  end.

(** The forest that [runTests] is given: the module-level [tests], read
    with a fuel that no chain of distinct objects can exhaust. *)
Definition forest (r : registry) : option (list (node W)) :=
  traverse (resolve (length (heap r)) (heap r)) (reg_tests r).

(** The registry after a call made with [cur] open: the entries and the
    hooks pushed on the open suite (or the entries pushed on [tests]), and
    the objects created. *)
Definition grown (cur : option nat) (es : list entry)
           (hs : list (callback W)) (news : list suite_object)
           (r : registry) : registry :=
  match cur with
  | Some id => mkRegistry (update id (extend es hs) (heap r) ++ news)
                          (reg_tests r) cur
  | None => mkRegistry (heap r ++ news) (reg_tests r ++ es) cur
  end.

(** [currentSuite] is [null] or an object of the store. *)
Definition open_in_store (r : registry) : Prop :=
  match currentSuite r with
  | Some id => id < length (heap r)
  | None => True
  end.

(** [run] behaves as calls made with a suite open or with none: it
    pushes entries and the hooks [hs] on the open suite (entries on
    [tests] when none is open, the hooks being dropped), creates objects,
    leaves [currentSuite] as it was, and the entries pushed read as
    [nodes] in any store that holds the objects created where it put
    them. *)
Definition registers (run : registry -> registry) (hs : list (callback W))
           (nodes : list (node W)) : Prop :=
  forall r,
    open_in_store r ->
    exists es news,
      run r = grown (currentSuite r) es hs news r /\
      forall pre post fuel,
        length pre = length (heap r) ->
        length news <= fuel ->
        traverse (resolve fuel (pre ++ news ++ post)) es = Some nodes.

End Registry.

Arguments ECase {W} name fn only.
Arguments ERef {W} id.
Arguments empty_registry {W}.

(** * Further notions, for the properties beyond the claims *)

Section Further.

Variable W : Type.

(** The records appended between two states are numbered one by one from
    the [failureIndex] of the first, which has advanced by their number. *)
Definition numbered (st st' : state W) : Prop :=
  exists new,
    failures st' = failures st ++ new /\
    map index new = seq (failureIndex st) (length new) /\
    failureIndex st' = failureIndex st + length new.

(** All the cases of a subtree that have a function, whatever the
    filter. *)
Fixpoint count_cases (t : node W) : nat :=
  match t with
  | Test _ (Some _) _ => 1
  | Test _ None _ => 0
  | Suite _ tests _ _ => list_sum (map count_cases tests)
  end.

(** Callbacks that always resolve. *)
Definition quiet (f : callback W) : Prop :=
  forall w, snd (f w) = None.

(** A subtree in which every case was registered with a function and
    every callback always resolves. *)
Inductive quiet_node : node W -> Prop :=
| quiet_test name fn only :
    quiet fn -> quiet_node (Test name (Some fn) only)
| quiet_suite name tests hooks only :
    Forall quiet hooks -> Forall quiet_node tests ->
    quiet_node (Suite name tests hooks only).

(** The line of an executed top-level case (lines 114 and 117): the pass
    mark at the margin, or a failure index after two spaces. *)
Definition top_line (test : node W) (line : string) : Prop :=
  line = "✓ " ^^ node_name test \/
  exists i, line = "  " ^^ string_of_nat i ^^ ") " ^^ node_name test.

(** The cases of a subtree whose root is at depth [d], each with its own
    depth; the nodes of the forest are at depth 0. *)
Fixpoint cases_at (d : nat) (t : node W) : list (nat * node W) :=
  match t with
  | Test _ _ _ => [(d, t)]
  | Suite _ tests _ _ => flat_map (cases_at (S d)) tests
  end.

(** Every case of the subtree was registered with a function. *)
Definition with_functions (t : node W) : Prop :=
  forall d c, In (d, c) (cases_at 0 t) -> has_fn c = true.

(** [line] is the line that a [catch] block prints when [failureIndex] is
    [i] (lines 75 and 117), for a case of the forest [tests] that has a
    function: the index and the name of the case, indented by one step
    more than the depth of the case. *)
Definition failure_marker (tests : list (node W)) (i : nat) (line : string)
  : Prop :=
  exists d c,
    In (d, c) (flat_map (cases_at 0) tests) /\ has_fn c = true /\
    line = repeat_string "  " (S d) ^^ string_of_nat i ^^ ") " ^^ node_name c.

(** Between [st] and [s] at least one line was printed, and the last one
    is the line of a failure with the index [failureIndex s], the one that
    the next record would take. *)
Definition unrecorded_marker (tests : list (node W)) (st s : state W) : Prop :=
  exists lines line,
    out s = out st ++ lines ++ [line] /\
    failure_marker tests (failureIndex s) line.

(** The forest in which the function of every unmarked case that has one
    is replaced by [g]. *)
Fixpoint rewire (g : callback W) (t : node W) : node W :=
  match t with
  | Test name (Some _) false => Test name (Some g) false
  | Test name fn only => Test name fn only
  | Suite name tests hooks only => Suite name (map (rewire g) tests) hooks only
  end.

End Further.

Arguments numbered {W} st st'.
Arguments unrecorded_marker {W} tests st s.
Arguments failure_marker {W} tests i line.
Arguments cases_at {W} d t.
Arguments with_functions {W} t.
Arguments rewire {W} g t.
Arguments count_cases {W} t.
Arguments top_line {W} test line.
Arguments quiet {W} f.
Arguments quiet_node {W} _.

(** ** Forests and calls for the further properties *)


(** A host state that counts: two hooks that add one, and a case that
    doubles. *)
Definition group_counting : node nat :=
  Suite "G" [Test "c" (Some (fun w => (2 * w, None))) false]
        [(fun w => (S w, None)); (fun w => (S w, None))] false.

(** A test file: a case, then a group with a hook before and a hook after
    its nested group and its case. *)
Definition calls_sample : list (registration unit) :=
  [it "a" (Some passes);
   describe "G" [beforeEach passes;
                 describe "N" [it "d" (Some passes)];
                 it "c1" (Some passes);
                 beforeEach passes]].

(** A case that throws [undefined], after a case that fails with a
    message. *)
Definition forest_aborting : list (node unit) :=
  [Test "a" (Some (fails_with "boom")) false;
   Test "u" (Some throws_undefined) false;
   Test "z" (Some passes) false].

(** [describe("G", () => { it("p"); it("q", pass) })]: the case [p] has no
    function. *)
Definition group_bare_case : node unit :=
  Suite "G" [Test "p" None false; Test "q" (Some passes) false] [] false.

(** A marked top-level case beside [group_deep_exclusive]. *)
Definition forest_marked_beside_deep : list (node unit) :=
  [Test "x" (Some passes) true; group_deep_exclusive].

(** A host state that keeps the names of the callbacks called, in the
    order of the calls. *)
Definition says (name : string) : callback (list string) :=
  fun w => (w ++ [name], None).


(** Hooks [h1; h2] and two cases, and a nested group with a hook and a
    case of its own. *)
Definition group_signing : node (list string) :=
  Suite "G" [Suite "N" [Test "d" (Some (says "d")) false] [says "hn"] false;
             Test "c1" (Some (says "c1")) false;
             Test "c2" (Some (says "c2")) false]
        [says "h1"; says "h2"] false.

(** A registry in the middle of a load: the suites [F] and [G] exist, [G]
    holds a case and a hook and is open. *)
Definition registry_open : registry unit :=
  mkRegistry
    [mkSuiteObject "F" [ECase "f" (Some passes) false] [] None false;
     mkSuiteObject "G" [ECase "c0" (Some passes) false] [passes] None false]
    [ECase "a0" (Some passes) false; ERef 0; ERef 1]
    (Some 1).

(** * Proofs *)

Unset Implicit Arguments.

Section Proofs.

Variable W : Type.

#[local] Abbreviation node := (node W).
#[local] Abbreviation state := (state W).
#[local] Abbreviation M := (M W).

Notation "x <- m ;; k" := (bind m (fun x => k))
  (at level 61, m at next level, right associativity).
Notation "m ;; k" := (bind m (fun _ => k))
  (at level 61, right associativity).

(** ** Induction on the suite tree *)

Lemma node_induction (P : node -> Prop) :
  (forall name fn only, P (Test name fn only)) ->
  (forall name tests hooks only,
      Forall P tests -> P (Suite name tests hooks only)) ->
  forall t, P t.
Proof.
  intros HT HS. fix IH 1. intros [name fn only | name tests hooks only].
  - apply HT.
  - apply HS. induction tests as [| t tests IHtests]; constructor.
    + apply IH.
    + exact IHtests.
Qed.

(** ** The monad *)

Lemma bind_Done {A B} (m : M A) (k : A -> M B) st b st' :
  bind m k st = Done b st' ->
  exists a st1, m st = Done a st1 /\ k a st1 = Done b st'.
Proof.
  unfold bind. destruct (m st) as [a st1 | st1]; intros H.
  - exists a, st1. split; [reflexivity | exact H].
  - discriminate H.
Qed.

Lemma bind_eq_Done {A B} (m : M A) (k : A -> M B) st a st1 :
  m st = Done a st1 -> bind m k st = k a st1.
Proof. intros H. unfold bind. rewrite H. reflexivity. Qed.

Lemma for_each_where_filter {A B} (p : A -> bool) (body : A -> B -> M B) l :
  forall acc st,
    for_each_where p body l acc st = for_each body (filter p l) acc st.
Proof.
  induction l as [| x l IH]; intros acc st; simpl.
  - reflexivity.
  - destruct (p x); simpl.
    + unfold bind. destruct (body x acc st); [apply IH | reflexivity].
    + apply IH.
Qed.


Lemma runSuite_unfold name tests hooks o indent only st :
  runSuite (Suite name tests hooks o) indent only st =
  (if negb (hasRunnableTests (Suite name tests hooks o) only)
   then (ret (mkResult 0 0) : M result)
   else
     console_log (repeat_string "  " indent ^^ name) ;;
     record_event (EnterSuite name) ;;
     acc <- for_each (run_testCase (Suite name tests hooks o) indent)
                     (testCases (Suite name tests hooks o) only)
                     (mkResult 0 0) ;;
     for_each (fun subSuite acc' =>
                 subResult <- runSuite subSuite (indent + 1)
                                       (isOnly (Suite name tests hooks o) only) ;;
                 ret (add_result acc' subResult))
              (subSuites tests) acc) st.
Proof.
  simpl. destruct (hasRunnableTests _ _); simpl; [| reflexivity].
  unfold bind. simpl.
  destruct (for_each _ _ _ _); [| reflexivity].
  apply for_each_where_filter.
Qed.

(** ** Runs observed on a channel *)

Section ChannelFacts.
Variable X : Type.
Variable chan : state -> list X.

Lemma produces_ret {A} (a : A) st :
  produces chan (ret a st) st (eq []).
Proof.
  exists [], []. simpl. rewrite app_nil_r. auto.
Qed.

Lemma produces_abort {A} st (G : list X -> Prop) :
  (exists t, G t) -> produces chan (@type_error W A st) st G.
Proof.
  intros [t Ht]. exists [], t. simpl. rewrite app_nil_r.
  repeat split; auto. intros [a [st' H]]. discriminate H.
Qed.

Lemma produces_weaken {A} (o : outcome W A) st (G G' : list X -> Prop) :
  produces chan o st G -> (forall t, G t -> G' t) -> produces chan o st G'.
Proof.
  intros [tr [rest [H1 [H2 H3]]]] HG. exists tr, rest. auto.
Qed.

Lemma produces_bind {A B} (m : M A) (k : A -> M B) st
      (G1 G2 : list X -> Prop) :
  produces chan (m st) st G1 ->
  (exists t, G2 t) ->
  (forall a st1, m st = Done a st1 -> produces chan (k a st1) st1 G2) ->
  produces chan (bind m k st) st (cat G1 G2).
Proof.
  intros [tr1 [rest1 [Hc1 [HG1 Hd1]]]] [t2 Ht2] Hk.
  unfold bind. destruct (m st) as [a st1 | st1] eqn:Em.
  - rewrite (Hd1 (ex_intro _ a (ex_intro _ st1 eq_refl))) in HG1.
    rewrite app_nil_r in HG1.
    destruct (Hk a st1 eq_refl) as [tr2 [rest2 [Hc2 [HG2 Hd2]]]].
    exists (tr1 ++ tr2), rest2. simpl in Hc1. repeat split.
    + rewrite Hc2, Hc1, app_assoc. reflexivity.
    + exists tr1, (tr2 ++ rest2). rewrite app_assoc. auto.
    + exact Hd2.
  - exists tr1, (rest1 ++ t2). simpl in *. repeat split.
    + exact Hc1.
    + exists (tr1 ++ rest1), t2. rewrite app_assoc. auto.
    + intros [a [st' H]]. discriminate H.
Qed.

Lemma cat_each_nil {T} (G : T -> list X -> Prop) : cat_each G [] [].
Proof. exists []. split; [constructor | reflexivity]. Qed.

Lemma cat_each_cons {T} (G : T -> list X -> Prop) x l t :
  cat (G x) (cat_each G l) t -> cat_each G (x :: l) t.
Proof.
  intros [t1 [t2 [Ht [H1 [ts [H2 Hts]]]]]]. exists (t1 :: ts). split.
  - constructor; assumption.
  - simpl. rewrite Ht, Hts. reflexivity.
Qed.

Lemma cat_each_inhabited {T} (G : T -> list X -> Prop) l :
  (forall x, In x l -> exists t, G x t) -> exists t, cat_each G l t.
Proof.
  induction l as [| x l IH]; intros H.
  - exists []. apply cat_each_nil.
  - destruct (H x (or_introl eq_refl)) as [t1 H1].
    destruct IH as [t2 H2]; [intros y Hy; apply H; right; exact Hy |].
    exists (t1 ++ t2). apply cat_each_cons. exists t1, t2. auto.
Qed.

Lemma produces_for_each {T B} (body : T -> B -> M B)
      (G : T -> list X -> Prop) l :
  (forall x, In x l -> exists t, G x t) ->
  (forall x, In x l -> forall acc st, produces chan (body x acc st) st (G x)) ->
  forall acc st, produces chan (for_each body l acc st) st (cat_each G l).
Proof.
  induction l as [| x l IH]; intros Hin Hbody acc st; simpl.
  - eapply produces_weaken; [apply produces_ret |].
    intros t <-. apply cat_each_nil.
  - eapply produces_weaken.
    + apply produces_bind with (G1 := G x) (G2 := cat_each G l).
      * apply Hbody. left. reflexivity.
      * apply cat_each_inhabited. intros y Hy. apply Hin. right. exact Hy.
      * intros acc' st1 _. apply IH.
        -- intros y Hy. apply Hin. right. exact Hy.
        -- intros y Hy. apply Hbody. right. exact Hy.
    + apply cat_each_cons.
Qed.
End ChannelFacts.

(** ** One case *)

Lemma visits_app (a b : list event) : visits (a ++ b) = visits a ++ visits b.
Proof. apply filter_app. Qed.

Lemma visits_hooks sname l : visits (map (CallHook sname) l) = [].
Proof. induction l as [| k l IH]; simpl; [reflexivity | exact IH]. Qed.

Lemma run_hooks_spec sname hooks :
  forall k st,
  exists r (st1 : state),
    run_hooks sname k hooks st = Done r st1 /\
    out st1 = out st /\ failureIndex st1 = failureIndex st /\
    failures st1 = failures st /\
    ((r = None /\
      trace st1 = trace st ++ map (CallHook sname) (seq k (length hooks))) \/
     (exists j, r <> None /\ j < length hooks /\
                trace st1 = trace st ++ map (CallHook sname) (seq k (S j)))).
Proof.
  induction hooks as [| hook hooks IH]; intros k st.
  - exists None, st. simpl. rewrite app_nil_r. auto 10.
  - simpl. unfold bind at 1. simpl. unfold bind at 1. simpl.
    destruct (snd (hook (world st))) as [err |] eqn:E.
    + eexists _, _. split; [reflexivity |]. simpl. repeat split.
      right. exists 0. repeat split; [discriminate | lia].
    + destruct (IH (S k) (set_world (fst (hook (world st)))
                                    (log (CallHook sname k) st)))
        as [r [st1 [Hrun [Ho [Hi [Hf Ht]]]]]].
      exists r, st1. split; [exact Hrun |]. simpl in *.
      repeat split; try assumption.
      destruct Ht as [[Hr Ht] | [j [Hr [Hj Ht]]]].
      * left. split; [exact Hr |]. rewrite Ht, <- app_assoc. reflexivity.
      * right. exists (S j). repeat split; [exact Hr | lia |].
        rewrite Ht, <- app_assoc. reflexivity.
Qed.

Lemma suite_try_spec suite test st :
  has_fn test = true ->
  exists r (st1 : state) seg,
    suite_try suite test st = Done r st1 /\
    out st1 = out st /\ failureIndex st1 = failureIndex st /\
    failures st1 = failures st /\
    trace st1 = trace st ++ seg /\
    visits seg = [] /\
    (r = None -> In (CallFn (node_name test)) seg).
Proof.
  intros Hfn. unfold suite_try.
  destruct (run_hooks_spec (node_name suite) (node_hooks suite) 0 st)
    as [h [st1 [Hrun [Ho [Hi [Hf Ht]]]]]].
  rewrite (bind_eq_Done _ _ _ _ _ Hrun).
  destruct Ht as [[Hh Ht] | [j [Hh [Hj Ht]]]].
  - subst h. destruct test as [name [fn |] o | ]; try discriminate Hfn.
    simpl. unfold bind. simpl.
    eexists _, _, _. split; [reflexivity |]. simpl.
    repeat split; try assumption.
    + rewrite Ht, <- app_assoc. reflexivity.
    + rewrite visits_app, visits_hooks. reflexivity.
    + intros _. apply in_or_app. right. left. reflexivity.
  - destruct h as [err |]; [| contradiction Hh; reflexivity].
    eexists _, _, _. split; [reflexivity |].
    repeat split; try eassumption.
    + apply visits_hooks.
    + discriminate.
Qed.

(** The three ways an iteration of the case loop can end. *)
Lemma run_testCase_spec suite indent test acc st :
  has_fn test = true ->
  exists (st1 : state) seg,
    out st1 = out st /\ failureIndex st1 = failureIndex st /\
    failures st1 = failures st /\
    trace st1 = trace st ++ start_of test :: seg /\
    visits seg = [] /\
    ((suite_try suite test (log (start_of test) st) = Done None st1 /\
      In (CallFn (node_name test)) seg /\
      run_testCase suite indent test acc st =
      Done (mkResult (S (passed acc)) (failed acc))
           (print (repeat_string "  " (indent + 1) ^^ "✓ " ^^ node_name test) st1))
     \/
     (exists m,
         suite_try suite test (log (start_of test) st)
         = Done (Some (Raised m)) st1 /\
         run_testCase suite indent test acc st =
         Done (mkResult (passed acc) (S (failed acc)))
              (bump (push (mkFailure (failureIndex st1) (node_name test)
                                     (or_default m "undefined") (indent + 1)
                                     (assertion_prefix ^^ or_default m "No message"))
                          (print (repeat_string "  " (indent + 1)
                                  ^^ string_of_nat (failureIndex st1) ^^ ") "
                                  ^^ node_name test) st1))))
     \/
     (suite_try suite test (log (start_of test) st) = Done (Some Nullish) st1 /\
      run_testCase suite indent test acc st =
      Abort (print (repeat_string "  " (indent + 1)
                    ^^ string_of_nat (failureIndex st1) ^^ ") "
                    ^^ node_name test) st1))).
Proof.
  intros Hfn.
  destruct (suite_try_spec suite test (log (start_of test) st) Hfn)
    as [r [st1 [seg [Htry [Ho [Hi [Hf [Ht [Hseg Hcall]]]]]]]]].
  exists st1, seg. simpl in *.
  repeat split; try assumption.
  - rewrite Ht, <- app_assoc. reflexivity.
  - unfold start_of in Htry |- *. destruct r as [[| m] |].
    + right. right. split; [exact Htry |].
      cbv [run_testCase bind record_event]. rewrite Htry. reflexivity.
    + right. left. exists m. split; [exact Htry |].
      cbv [run_testCase bind record_event]. rewrite Htry. reflexivity.
    + left. split; [exact Htry |]. split; [apply Hcall; reflexivity |].
      cbv [run_testCase bind record_event]. rewrite Htry. reflexivity.
Qed.

(** ** A group, on any channel read off the log *)

Lemma testCases_has_fn (suite : node) only test :
  In test (testCases suite only) -> has_fn test = true.
Proof.
  unfold testCases. intros H. apply filter_In in H. destruct H as [_ H].
  apply andb_true_iff in H. apply H.
Qed.

Lemma subSuites_In (l : list node) s :
  In s (subSuites l) -> In s l /\ has_fn s = false.
Proof.
  unfold subSuites. intros H. apply filter_In in H. destruct H as [H1 H2].
  split; [exact H1 |]. destruct (has_fn s); [discriminate H2 | reflexivity].
Qed.

Section SuiteOnChannel.
Variable X : Type.
Variable chan : state -> list X.

(** What a printed line and a logged event add to the channel. *)
Variable on_print : string -> list X.
Variable on_log : event -> list X.
Hypothesis chan_print :
  forall line st, chan (print line st) = chan st ++ on_print line.
Hypothesis chan_log :
  forall e st, chan (log e st) = chan st ++ on_log e.

Variable Gcase : nat -> node -> node -> list X -> Prop.
Variable Gsuite : nat -> bool -> node -> list X -> Prop.

Hypothesis Gcase_inhabited :
  forall indent suite test, exists t, Gcase indent suite test t.
Hypothesis Gcase_run :
  forall suite indent test acc st,
    has_fn test = true ->
    exists t,
      chan (final (run_testCase suite indent test acc st)) = chan st ++ t /\
      Gcase indent suite test t.
Hypothesis Gsuite_skipped :
  forall indent only s,
    hasRunnableTests s only = false -> Gsuite indent only s [].
Hypothesis Gsuite_run :
  forall indent only s t1 t2,
    hasRunnableTests s only = true ->
    cat_each (Gcase indent s) (testCases s only) t1 ->
    cat_each (Gsuite (indent + 1) (isOnly s only)) (subSuites (node_tests s)) t2 ->
    Gsuite indent only s
           (on_print (repeat_string "  " indent ^^ node_name s)
            ++ on_log (EnterSuite (node_name s)) ++ t1 ++ t2).

Lemma run_testCase_produces suite indent test acc st :
  has_fn test = true ->
  produces chan (run_testCase suite indent test acc st) st
           (Gcase indent suite test).
Proof.
  intros Hfn.
  destruct (Gcase_run suite indent test acc st Hfn) as [t [Hc Ht]].
  exists t, []. rewrite app_nil_r. auto.
Qed.

Lemma Gsuite_inhabited :
  forall s indent only, exists t, Gsuite indent only s t.
Proof.
  induction s as [name fn o | name tests hooks o IH] using node_induction;
    intros indent only.
  - exists []. apply Gsuite_skipped. reflexivity.
  - destruct (hasRunnableTests (Suite name tests hooks o) only) eqn:E.
    + destruct (cat_each_inhabited _ (Gcase indent (Suite name tests hooks o))
                  (testCases (Suite name tests hooks o) only)) as [t1 H1].
      { intros x _. apply Gcase_inhabited. }
      destruct (cat_each_inhabited _
                  (Gsuite (indent + 1) (isOnly (Suite name tests hooks o) only))
                  (subSuites tests)) as [t2 H2].
      { intros x Hx. apply subSuites_In in Hx. destruct Hx as [Hx _].
        rewrite Forall_forall in IH. apply IH. exact Hx. }
      eexists. apply Gsuite_run; eassumption.
    + exists []. apply Gsuite_skipped. exact E.
Qed.

Lemma runSuite_produces :
  forall s indent only st,
    produces chan (runSuite s indent only st) st (Gsuite indent only s).
Proof.
  induction s as [name fn o | name tests hooks o IH] using node_induction;
    intros indent only st.
  - apply produces_abort. apply Gsuite_inhabited.
  - rewrite runSuite_unfold.
    destruct (hasRunnableTests (Suite name tests hooks o) only) eqn:E; simpl.
    + destruct (cat_each_inhabited _ (Gcase indent (Suite name tests hooks o))
                  (testCases (Suite name tests hooks o) only)) as [w1 Hw1].
      { intros x _. apply Gcase_inhabited. }
      destruct (cat_each_inhabited _
                  (Gsuite (indent + 1) (isOnly (Suite name tests hooks o) only))
                  (subSuites tests)) as [w2 Hw2].
      { intros x _. apply Gsuite_inhabited. }
      eapply produces_weaken.
      * apply produces_bind
          with (G1 := eq (on_print (repeat_string "  " indent ^^ name))); cycle 2.
        { intros _ st1 _.
          apply produces_bind
            with (G1 := eq (on_log (EnterSuite name))); cycle 2.
          { intros _ st2 _.
            apply produces_bind
              with (G1 := cat_each (Gcase indent (Suite name tests hooks o))
                                   (testCases (Suite name tests hooks o) only)); cycle 2.
            { intros acc st3 _.
              apply produces_for_each
                with (G := Gsuite (indent + 1)
                                  (isOnly (Suite name tests hooks o) only)).
              - intros x _. apply Gsuite_inhabited.
              - intros x Hx acc' st4. apply subSuites_In in Hx.
                destruct Hx as [Hx _]. rewrite Forall_forall in IH.
                eapply produces_weaken.
                + apply produces_bind with (G2 := eq []).
                  * apply (IH x Hx).
                  * exists []. reflexivity.
                  * intros r st5 _. apply produces_ret.
                + intros t [t1 [t2 [-> [H1 <-]]]]. rewrite app_nil_r. exact H1. }
            { apply produces_for_each.
              - intros x _. apply Gcase_inhabited.
              - intros x Hx acc st3. apply run_testCase_produces.
                apply testCases_has_fn in Hx. exact Hx. }
            { exists w2. exact Hw2. } }
          { exists (on_log (EnterSuite name)), []. simpl.
            rewrite chan_log, app_nil_r. auto. }
          { exists (w1 ++ w2), w1, w2. auto. } }
        { exists (on_print (repeat_string "  " indent ^^ name)), []. simpl.
          rewrite chan_print, app_nil_r. auto. }
        { exists (on_log (EnterSuite name) ++ w1 ++ w2),
                 (on_log (EnterSuite name)), (w1 ++ w2).
          split; [reflexivity |]. split; [reflexivity |].
          exists w1, w2. auto. }
      * intros t [e0 [t' [-> [<- [e1 [t'' [-> [<- [t1 [t2 [-> [H1 H2]]]]]]]]]]]].
        apply (Gsuite_run indent only (Suite name tests hooks o) t1 t2 E H1 H2).
    + eapply produces_weaken; [apply produces_ret |].
      intros t <-. apply Gsuite_skipped. exact E.
Qed.
End SuiteOnChannel.

(** The channels read off the event log. *)
Lemma run_testCase_visits suite indent (test : node) acc (st : state) :
  has_fn test = true ->
  visits (trace (final (run_testCase suite indent test acc st)))
  = visits (trace st) ++ [start_of test].
Proof.
  intros Hfn.
  destruct (run_testCase_spec suite indent test acc st Hfn)
    as [st1 [seg [_ [_ [_ [Ht [Hseg Hrun]]]]]]].
  assert (Hv : visits (trace st1) = visits (trace st) ++ [start_of test]).
  { rewrite Ht, visits_app. simpl. rewrite Hseg. reflexivity. }
  rewrite <- Hv.
  destruct Hrun as [[_ [_ ->]] | [[m [_ ->]] | [_ ->]]]; reflexivity.
Qed.

(** ** The visits of a group *)

Lemma cat_each_eq {X T} (f : T -> list X) l t :
  cat_each (fun x => eq (f x)) l t -> t = flat_map f l.
Proof.
  intros [ts [H ->]]. induction H as [| x t l ts Hx H IH]; simpl.
  - reflexivity.
  - rewrite Hx, IH. reflexivity.
Qed.

Lemma flat_map_singleton {X T} (f : T -> X) l :
  flat_map (fun x => [f x]) l = map f l.
Proof. induction l as [| x l IH]; simpl; [| rewrite IH]; reflexivity. Qed.

Lemma suite_order_subSuites only (l : list node) :
  flat_map (suite_order only) (subSuites l) = flat_map (suite_order only) l.
Proof.
  induction l as [| t l IH]; simpl; [reflexivity |].
  destruct t as [name [fn |] o | name tests hooks o]; simpl.
  - exact IH.
  - exact IH.
  - rewrite IH. reflexivity.
Qed.

(** The order of a group, with the nested groups named. *)
Lemma suite_order_unfold only (s : node) :
  suite_order only s =
  if hasRunnableTests s only then
    EnterSuite (node_name s) :: map start_of (testCases s only)
               ++ flat_map (suite_order (isOnly s only)) (subSuites (node_tests s))
  else [].
Proof.
  destruct s as [name fn o | name tests hooks o].
  - reflexivity.
  - rewrite suite_order_subSuites. reflexivity.
Qed.

Lemma runSuite_visits (s : node) indent only (st : state) :
  produces (fun st => visits (trace st)) (runSuite s indent only st) st
           (eq (suite_order only s)).
Proof.
  apply runSuite_produces
    with (on_print := fun _ => []) (on_log := fun e => visits [e])
         (Gcase := fun _ _ test => eq [start_of test])
         (Gsuite := fun _ only (s : node) => eq (suite_order only s)).
  - intros line st0. simpl. rewrite app_nil_r. reflexivity.
  - intros e st0. simpl. apply visits_app.
  - intros _ _ test. eexists. reflexivity.
  - intros suite indent0 test acc st0 Hfn.
    exists [start_of test]. split; [| reflexivity].
    apply run_testCase_visits. exact Hfn.
  - intros _ only' s' H. rewrite suite_order_unfold, H. reflexivity.
  - intros _ only' s' t1 t2 H H1 H2.
    apply cat_each_eq in H1. apply cat_each_eq in H2.
    rewrite flat_map_singleton in H1. subst t1 t2.
    rewrite suite_order_unfold, H. reflexivity.
Qed.

(** ** The top-level loop and the report *)

Lemma run_topLevelTest_skip isOnly (test : node) acc (st : state) :
  isOnly && negb (node_only test) = true ->
  run_topLevelTest isOnly test acc st = Done acc st.
Proof. intros H. unfold run_topLevelTest. rewrite H. reflexivity. Qed.

(** The three ways an iteration of the top-level loop that is not skipped
    can end. *)
Lemma run_topLevelTest_spec isOnly (test : node) acc (st : state) :
  has_fn test = true ->
  isOnly && negb (node_only test) = false ->
  exists st1 : state,
    out st1 = out st /\ failureIndex st1 = failureIndex st /\
    failures st1 = failures st /\
    trace st1 = trace st ++ [start_of test; CallFn (node_name test)] /\
    ((call_fn test (log (start_of test) st) = Done None st1 /\
      run_topLevelTest isOnly test acc st =
      Done (mkResult (S (passed acc)) (failed acc))
           (print ("✓ " ^^ node_name test) st1))
     \/
     (exists m,
         call_fn test (log (start_of test) st) = Done (Some (Raised m)) st1 /\
         run_topLevelTest isOnly test acc st =
         Done (mkResult (passed acc) (S (failed acc)))
              (bump (push (mkFailure (failureIndex st1) (node_name test)
                                     (or_default m "undefined") 0
                                     (assertion_prefix ^^ or_default m "No message"))
                          (print ("  " ^^ string_of_nat (failureIndex st1) ^^ ") "
                                  ^^ node_name test) st1))))
     \/
     (call_fn test (log (start_of test) st) = Done (Some Nullish) st1 /\
      run_topLevelTest isOnly test acc st =
      Abort (print ("  " ^^ string_of_nat (failureIndex st1) ^^ ") "
                    ^^ node_name test) st1))).
Proof.
  intros Hfn Hskip. destruct test as [name [fn |] o | ]; try discriminate Hfn.
  unfold run_topLevelTest. rewrite Hskip.
  exists (set_world (fst (fn (world st)))
                    (log (CallFn name) (log (StartTest name) st))).
  simpl. repeat split.
  - rewrite <- app_assoc. reflexivity.
  - cbv [bind record_event call_fn await]. simpl.
    destruct (snd (fn (world st))) as [[| m] |].
    + right. right. split; reflexivity.
    + right. left. exists m. split; reflexivity.
    + left. split; reflexivity.
Qed.

Lemma print_failures_spec l :
  forall st : state,
    print_failures l st =
    Done tt (mkState (world st) (out st ++ flat_map failure_lines l)
                     (failureIndex st) (failures st) (trace st)).
Proof.
  induction l as [| f l IH]; intros st; simpl.
  - rewrite app_nil_r. destruct st; reflexivity.
  - cbv [bind print_failure console_log]. rewrite IH. simpl.
    rewrite <- !app_assoc. reflexivity.
Qed.

Lemma report_spec total (st : state) :
  report total st =
  Done tt (mkState (world st) (out st ++ report_lines total (failures st))
                   (failureIndex st) (failures st) (trace st)).
Proof.
  unfold report, report_lines. cbv [bind console_log].
  destruct (Nat.ltb 0 (failed total)).
  - rewrite print_failures_spec. simpl. rewrite <- !app_assoc. reflexivity.
  - reflexivity.
Qed.

(** ** The visits of a whole run *)




(** ** Counting *)

Lemma for_each_count {T} (body : T -> result -> M result) (c : T -> nat) l :
  (forall x, In x l -> forall acc st acc' st',
        body x acc st = Done acc' st' ->
        passed acc' + failed acc' = passed acc + failed acc + c x) ->
  forall acc st acc' st',
    for_each body l acc st = Done acc' st' ->
    passed acc' + failed acc' = passed acc + failed acc + list_sum (map c l).
Proof.
  induction l as [| x l IH]; intros Hbody acc st acc' st' Hrun; simpl in *.
  - injection Hrun as <- _. lia.
  - apply bind_Done in Hrun. destruct Hrun as [acc1 [st1 [H1 H2]]].
    apply (Hbody x (or_introl eq_refl)) in H1.
    apply IH in H2; [lia |].
    intros y Hy. apply Hbody. right. exact Hy.
Qed.

Lemma run_testCase_count suite indent (test : node) acc st acc' st' :
  has_fn test = true ->
  run_testCase suite indent test acc st = Done acc' st' ->
  passed acc' + failed acc' = passed acc + failed acc + 1.
Proof.
  intros Hfn Hrun.
  destruct (run_testCase_spec suite indent test acc st Hfn)
    as [st1 [seg [_ [_ [_ [_ [_ H]]]]]]].
  destruct H as [[_ [_ H]] | [[m [_ H]] | [_ H]]];
    rewrite H in Hrun; [ | | discriminate Hrun];
    injection Hrun as <- _; simpl; lia.
Qed.

Lemma run_topLevelTest_count isOnly (test : node) acc st acc' st' :
  has_fn test = true ->
  run_topLevelTest isOnly test acc st = Done acc' st' ->
  passed acc' + failed acc'
  = passed acc + failed acc + (if isOnly && negb (node_only test) then 0 else 1).
Proof.
  intros Hfn Hrun. destruct (isOnly && negb (node_only test)) eqn:Hskip.
  - rewrite (run_topLevelTest_skip _ _ _ _ Hskip) in Hrun.
    injection Hrun as <- _. lia.
  - destruct (run_topLevelTest_spec isOnly test acc st Hfn Hskip)
      as [st1 [_ [_ [_ [_ H]]]]].
    destruct H as [[_ H] | [[m [_ H]] | [_ H]]];
      rewrite H in Hrun; [ | | discriminate Hrun];
      injection Hrun as <- _; simpl; lia.
Qed.

Lemma list_sum_const_1 {T} (l : list T) : list_sum (map (fun _ => 1) l) = length l.
Proof. induction l as [| x l IH]; simpl; [| rewrite IH]; reflexivity. Qed.

Lemma list_sum_skip {T} (p : T -> bool) (l : list T) :
  list_sum (map (fun x => if p x then 0 else 1) l)
  = length (filter (fun x => negb (p x)) l).
Proof.
  induction l as [| x l IH]; simpl; [reflexivity |].
  destruct (p x); simpl; rewrite IH; reflexivity.
Qed.

Lemma suite_runnable_subSuites only (l : list node) :
  list_sum (map (suite_runnable only) (subSuites l))
  = list_sum (map (suite_runnable only) l).
Proof.
  induction l as [| t l IH]; simpl; [reflexivity |].
  destruct t as [name [fn |] o | name tests hooks o]; simpl.
  - exact IH.
  - exact IH.
  - rewrite IH. reflexivity.
Qed.

Lemma runSuite_count :
  forall (s : node) indent only st r st',
    runSuite s indent only st = Done r st' ->
    passed r + failed r = suite_runnable only s.
Proof.
  induction s as [name fn o | name tests hooks o IH] using node_induction;
    intros indent only st r st' Hrun.
  - discriminate Hrun.
  - rewrite runSuite_unfold in Hrun. simpl suite_runnable.
    destruct (hasRunnableTests (Suite name tests hooks o) only) eqn:E;
      simpl in Hrun.
    + apply bind_Done in Hrun. destruct Hrun as [_ [st1 [_ Hrun]]].
      apply bind_Done in Hrun. destruct Hrun as [_ [st2 [_ Hrun]]].
      apply bind_Done in Hrun. destruct Hrun as [acc [st3 [Hcases Hsubs]]].
      apply for_each_count with (c := fun _ => 1) in Hcases.
      * apply for_each_count
          with (c := suite_runnable (isOnly (Suite name tests hooks o) only))
          in Hsubs.
        -- rewrite list_sum_const_1 in Hcases.
           rewrite suite_runnable_subSuites in Hsubs. simpl in Hcases. lia.
        -- intros x Hx acc0 st0 acc' st0' Hbody.
           apply bind_Done in Hbody. destruct Hbody as [r0 [st4 [Hsub Hret]]].
           injection Hret as <- _. apply subSuites_In in Hx.
           rewrite Forall_forall in IH.
           apply (IH x (proj1 Hx)) in Hsub. simpl. lia.
      * intros x Hx acc0 st0 acc' st0' Hbody.
        eapply run_testCase_count; [| exact Hbody].
        eapply testCases_has_fn. exact Hx.
    + injection Hrun as <- _. reflexivity.
Qed.

Lemma runTests_inv (tests : list node) st r st' :
  runTests tests st = Done r st' ->
  exists acc st1 st2,
    for_each (run_topLevelTest (hasOnly tests)) (topLevelTests tests)
             (mkResult 0 0) st = Done acc st1 /\
    for_each (fun suite acc' =>
                suiteResult <- runSuite suite 1 (hasOnly tests) ;;
                ret (add_result acc' suiteResult))
             (subSuites tests) acc st1 = Done r st2 /\
    st' = mkState (world st2) (out st2 ++ report_lines r (failures st2))
                  (failureIndex st2) (failures st2) (trace st2).
Proof.
  unfold runTests. intros Hrun.
  apply bind_Done in Hrun. destruct Hrun as [acc [st1 [H1 Hrun]]].
  apply bind_Done in Hrun. destruct Hrun as [total [st2 [H2 Hrun]]].
  unfold bind in Hrun. rewrite report_spec in Hrun.
  injection Hrun as <- <-. exists acc, st1, st2. auto.
Qed.

Lemma runTests_count (tests : list node) st r st' :
  runTests tests st = Done r st' ->
  passed r + failed r = forest_runnable tests.
Proof.
  intros Hrun. apply runTests_inv in Hrun.
  destruct Hrun as [acc [st1 [st2 [H1 [H2 _]]]]].
  apply for_each_count
    with (c := fun t : node => if hasOnly tests && negb (node_only t) then 0 else 1)
    in H1.
  - apply for_each_count with (c := suite_runnable (hasOnly tests)) in H2.
    + rewrite list_sum_skip in H1. unfold forest_runnable, topLevelRun.
      simpl in H1. lia.
    + intros x Hx acc0 st0 acc' st0' Hbody.
      apply bind_Done in Hbody. destruct Hbody as [r0 [st4 [Hsub Hret]]].
      injection Hret as <- _. apply runSuite_count in Hsub. simpl. lia.
  - intros x Hx acc0 st0 acc' st0' Hbody.
    eapply run_topLevelTest_count; [| exact Hbody].
    unfold topLevelTests in Hx. apply filter_In in Hx. apply Hx.
Qed.

(** ** The report of a group *)

Lemma cat_each_singletons {X T} (R : T -> X -> Prop) l t :
  cat_each (fun x t => exists y, t = [y] /\ R x y) l t -> Forall2 R l t.
Proof.
  intros [ts [H ->]]. induction H as [| x t l ts [y [-> Hy]] H IH]; simpl.
  - constructor.
  - constructor; assumption.
Qed.

Lemma runSuite_report (s : node) indent only (st : state) :
  produces (@out W) (runSuite s indent only st) st (suite_report indent only s).
Proof.
  apply runSuite_produces
    with (on_print := fun line => [line]) (on_log := fun _ => [])
         (Gcase := fun indent _ test t =>
                     exists line, t = [line] /\
                                  case_line (repeat_string "  " (indent + 1)) test line)
         (Gsuite := @suite_report W).
  - intros line st0. reflexivity.
  - intros e st0. simpl. rewrite app_nil_r. reflexivity.
  - intros indent0 _ test. eexists. eexists. split; [reflexivity |].
    left. reflexivity.
  - intros suite indent0 test acc st0 Hfn.
    destruct (run_testCase_spec suite indent0 test acc st0 Hfn)
      as [st1 [seg [Ho [_ [_ [_ [_ Hrun]]]]]]].
    destruct Hrun as [[_ [_ ->]] | [[m [_ ->]] | [_ ->]]]; simpl; rewrite Ho;
      eexists; (split; [reflexivity |]); eexists; (split; [reflexivity |]).
    + left. reflexivity.
    + right. eexists. reflexivity.
    + right. eexists. reflexivity.
  - intros indent0 only' s' H. apply report_skipped. exact H.
  - intros indent0 only' s' t1 t2 H H1 [subs [H2 ->]].
    apply cat_each_singletons in H1. simpl.
    apply report_run; assumption.
Qed.

(** ** Runs that return *)

Lemma for_each_completed {T B} (body : T -> B -> M B) l :
  (forall x, In x l -> forall acc st, completed (body x acc st)) ->
  forall acc st, completed (for_each body l acc st).
Proof.
  induction l as [| x l IH]; intros Hbody acc st; simpl.
  - exists acc, st. reflexivity.
  - destruct (Hbody x (or_introl eq_refl) acc st) as [acc1 [st1 H1]].
    rewrite (bind_eq_Done _ _ _ _ _ H1). apply IH.
    intros y Hy. apply Hbody. right. exact Hy.
Qed.

Lemma run_hooks_gentle sname (hooks : list (callback W)) :
  Forall gentle hooks ->
  forall k st r st1,
    run_hooks sname k hooks st = Done r st1 -> r <> Some Nullish.
Proof.
  induction 1 as [| hook hooks Hhook _ IH]; intros k st r st1 Hrun.
  - injection Hrun as <- _. discriminate.
  - simpl in Hrun. cbv [bind record_event await] in Hrun. simpl in Hrun.
    destruct (snd (hook (world st))) as [err |] eqn:E.
    + injection Hrun as <- _. rewrite <- E. apply Hhook.
    + eapply IH. exact Hrun.
Qed.

Lemma suite_try_gentle suite (test : node) st r st1 :
  gentle_node test -> Forall gentle (node_hooks suite) ->
  suite_try suite test st = Done r st1 -> r <> Some Nullish.
Proof.
  intros Htest Hhooks Hrun. unfold suite_try in Hrun.
  apply bind_Done in Hrun. destruct Hrun as [h [st0 [Hh Hrun]]].
  destruct h as [err |].
  - injection Hrun as <- _. eapply run_hooks_gentle; eassumption.
  - destruct Htest as [name fn o Hfn | name tests hooks o _ _]; simpl in Hrun.
    + cbv [bind record_event await] in Hrun. injection Hrun as <- _. apply Hfn.
    + injection Hrun as <- _. discriminate.
Qed.

Lemma run_testCase_completed suite indent (test : node) acc st :
  has_fn test = true -> gentle_node test ->
  Forall gentle (node_hooks suite) ->
  completed (run_testCase suite indent test acc st).
Proof.
  intros Hfn Htest Hhooks.
  destruct (run_testCase_spec suite indent test acc st Hfn)
    as [st1 [seg [_ [_ [_ [_ [_ H]]]]]]].
  destruct H as [[_ [_ H]] | [[m [_ H]] | [Htry _]]].
  - eexists _, _. exact H.
  - eexists _, _. exact H.
  - exfalso. eapply suite_try_gentle; [exact Htest | exact Hhooks | exact Htry |].
    reflexivity.
Qed.

Lemma runSuite_completed :
  forall s : node,
    has_fn s = false -> gentle_node s ->
    forall indent only st, completed (runSuite s indent only st).
Proof.
  induction s as [name fn o | name tests hooks o IH] using node_induction;
    intros Hfn Hs indent only st.
  - inversion Hs; subst. discriminate Hfn.
  - rewrite runSuite_unfold. inversion Hs as [| n ts hs o' Hhooks Htests]; subst.
    rewrite Forall_forall in IH, Htests.
    destruct (hasRunnableTests (Suite name tests hooks o) only); simpl.
    + cbv [bind console_log record_event].
      match goal with
      | |- context [for_each ?b ?l ?a ?s] =>
          destruct (for_each_completed b l) with (acc := a) (st := s)
            as [acc [st3 Hcases]]
      end.
      { intros x Hx acc st0. apply run_testCase_completed.
        - eapply testCases_has_fn. exact Hx.
        - apply Htests. unfold testCases in Hx. apply filter_In in Hx. apply Hx.
        - exact Hhooks. }
      rewrite Hcases. apply for_each_completed.
      intros x Hx acc0 st0. apply subSuites_In in Hx. destruct Hx as [Hx Hf].
      destruct (IH x Hx Hf (Htests x Hx) (indent + 1)
                   (isOnly (Suite name tests hooks o) only) st0)
        as [r [st4 Hsub]].
      rewrite Hsub. eexists _, _. reflexivity.
    + eexists _, _. reflexivity.
Qed.

Lemma run_topLevelTest_completed isOnly (test : node) acc st :
  has_fn test = true -> gentle_node test ->
  completed (run_topLevelTest isOnly test acc st).
Proof.
  intros Hfn Htest. destruct (isOnly && negb (node_only test)) eqn:Hskip.
  - rewrite (run_topLevelTest_skip _ _ _ _ Hskip). eexists _, _. reflexivity.
  - destruct (run_topLevelTest_spec isOnly test acc st Hfn Hskip)
      as [st1 [_ [_ [_ [_ H]]]]].
    destruct H as [[_ H] | [[m [_ H]] | [Hcall _]]].
    + eexists _, _. exact H.
    + eexists _, _. exact H.
    + exfalso. destruct Htest as [name fn o Hg | ]; [| discriminate Hfn].
      cbv [call_fn bind record_event await] in Hcall.
      injection Hcall as Hcall _. apply (Hg _ Hcall).
Qed.

(** A forest whose callbacks never throw [undefined] or [null] is run to
    the end. *)
Lemma runTests_completed (tests : list node) (st : state) :
  Forall gentle_node tests -> completed (runTests tests st).
Proof.
  intros Htests. rewrite Forall_forall in Htests. unfold runTests.
  match goal with
  | |- context [for_each ?b ?l ?a] =>
      destruct (for_each_completed b l) with (acc := a) (st := st)
        as [acc [st1 H1]]
  end.
  { intros x Hx acc st0. unfold topLevelTests in Hx. apply filter_In in Hx.
    apply run_topLevelTest_completed; [apply Hx | apply Htests; apply Hx]. }
  rewrite (bind_eq_Done _ _ _ _ _ H1).
  match goal with
  | |- context [for_each ?b ?l acc] =>
      destruct (for_each_completed b l) with (acc := acc) (st := st1)
        as [total [st2 H2]]
  end.
  { intros x Hx acc0 st0. apply subSuites_In in Hx. destruct Hx as [Hx Hf].
    destruct (runSuite_completed x Hf (Htests x Hx) 1 (hasOnly tests) st0)
      as [r [st4 Hsub]].
    rewrite (bind_eq_Done _ _ _ _ _ Hsub). eexists _, _. reflexivity. }
  rewrite (bind_eq_Done _ _ _ _ _ H2). unfold bind. rewrite report_spec.
  eexists _, _. reflexivity.
Qed.

(** ** Reading [produces] at the end of a run *)


Lemma produces_Done {X A} (chan : state -> list X) (o : outcome W A) st G a st' :
  produces chan o st G -> o = Done a st' ->
  exists tr, chan st' = chan st ++ tr /\ G tr.
Proof.
  intros [tr [rest [Hc [HG Hd]]]] ->. exists tr. split; [exact Hc |].
  rewrite (Hd (ex_intro _ a (ex_intro _ st' eq_refl))), app_nil_r in HG.
  exact HG.
Qed.

(** ** Registration order and interleaving *)








(** ** Caught values *)

Lemma suite_try_engine suite (test : node) (st : state) r st1 :
  suite_try suite test st = Done r st1 ->
  out st1 = out st /\ failureIndex st1 = failureIndex st /\
  failures st1 = failures st.
Proof.
  unfold suite_try. intros Hrun.
  apply bind_Done in Hrun. destruct Hrun as [h [st0 [Hh Hrun]]].
  destruct (run_hooks_spec (node_name suite) (node_hooks suite) 0 st)
    as [h' [st0' [Hh' [Ho [Hi [Hf _]]]]]].
  rewrite Hh in Hh'. injection Hh' as <- <-.
  destruct h as [err |].
  - injection Hrun as _ <-. auto.
  - destruct test as [name [fn |] o | name tests hooks o]; simpl in Hrun.
    + cbv [bind record_event await] in Hrun. injection Hrun as _ <-. auto.
    + injection Hrun as _ <-. auto.
    + injection Hrun as _ <-. auto.
Qed.

Lemma call_fn_engine (test : node) (st : state) r st1 :
  call_fn test st = Done r st1 ->
  out st1 = out st /\ failureIndex st1 = failureIndex st /\
  failures st1 = failures st.
Proof.
  destruct test as [name [fn |] o | name tests hooks o]; simpl; intros Hrun.
  - cbv [bind record_event await] in Hrun. injection Hrun as _ <-. auto.
  - injection Hrun as _ <-. auto.
  - injection Hrun as _ <-. auto.
Qed.

(** The iteration of the case loop in which the [try] block throws a value
    that is not [undefined] or [null]. *)
Lemma run_testCase_caught suite indent (test : node) acc (st st1 : state) m :
  suite_try suite test (log (start_of test) st) = Done (Some (Raised m)) st1 ->
  run_testCase suite indent test acc st
  = Done (mkResult (passed acc) (S (failed acc)))
         (bump (push (mkFailure (failureIndex st) (node_name test)
                                (or_default m "undefined") (indent + 1)
                                (assertion_prefix ^^ or_default m "No message"))
                     (print (repeat_string "  " (indent + 1)
                             ^^ string_of_nat (failureIndex st) ^^ ") "
                             ^^ node_name test) st1)))
  /\ failures st1 = failures st.
Proof.
  intros Htry. destruct (suite_try_engine _ _ _ _ _ Htry) as [_ [Hi Hf]].
  simpl in Hi, Hf. split; [| exact Hf].
  unfold start_of in Htry. cbv [run_testCase bind record_event].
  rewrite Htry. cbv [suite_catch bind get_failureIndex console_log
                     failures_push failureIndex_incr ret].
  simpl. rewrite Hi. reflexivity.
Qed.

Lemma run_topLevelTest_caught isOnly (test : node) acc (st st1 : state) m :
  isOnly && negb (node_only test) = false ->
  call_fn test (log (start_of test) st) = Done (Some (Raised m)) st1 ->
  run_topLevelTest isOnly test acc st
  = Done (mkResult (passed acc) (S (failed acc)))
         (bump (push (mkFailure (failureIndex st) (node_name test)
                                (or_default m "undefined") 0
                                (assertion_prefix ^^ or_default m "No message"))
                     (print ("  " ^^ string_of_nat (failureIndex st) ^^ ") "
                             ^^ node_name test) st1)))
  /\ failures st1 = failures st.
Proof.
  intros Hskip Hcall. destruct (call_fn_engine _ _ _ _ Hcall) as [_ [Hi Hf]].
  simpl in Hi, Hf. split; [| exact Hf].
  unfold start_of in Hcall. unfold run_topLevelTest. rewrite Hskip.
  cbv [bind record_event]. rewrite Hcall.
  cbv [top_catch bind get_failureIndex console_log
       failures_push failureIndex_incr ret].
  simpl. rewrite Hi. reflexivity.
Qed.

Lemma or_default_present s d : s <> "" -> or_default (Some s) d = s.
Proof.
  intros Hs. unfold or_default. destruct (String.eqb_spec s "") as [E | _].
  - contradiction.
  - reflexivity.
Qed.

Lemma or_default_missing m d : m = None \/ m = Some "" -> or_default m d = d.
Proof. intros [-> | ->]; reflexivity. Qed.

(** Every recorded failure has its detail string in the trailing block of
    a run that reports a failed case. *)
Lemma runTests_block (tests : list node) (st : state) r st' :
  runTests tests st = Done r st' -> 0 < failed r ->
  forall f, In f (failures st') -> In ("      " ^^ details f) (out st').
Proof.
  intros Hrun Hfailed f Hf. apply runTests_inv in Hrun.
  destruct Hrun as [acc [st1 [st2 [_ [_ ->]]]]]. simpl in *.
  apply in_or_app. right. unfold report_lines.
  apply Nat.ltb_lt in Hfailed. rewrite Hfailed.
  right. right. apply in_flat_map. exists f. split; [exact Hf |].
  right. left. reflexivity.
Qed.

(** ** A hook that throws *)

Lemma run_hooks_app sname (hs1 : list (callback W)) :
  forall k hs2 st,
    run_hooks sname k (hs1 ++ hs2) st
    = (r <- run_hooks sname k hs1 ;;
       match r with
       | Some err => ret (Some err)
       | None => run_hooks sname (k + length hs1) hs2
       end) st.
Proof.
  induction hs1 as [| hook hs1 IH]; intros k hs2 st; simpl.
  - rewrite Nat.add_0_r. reflexivity.
  - cbv [bind record_event await]. simpl.
    destruct (snd (hook (world st))) as [err |].
    + reflexivity.
    + rewrite IH. cbv [bind]. rewrite Nat.add_succ_r. reflexivity.
Qed.

(** The [try] block when the hooks before [h] resolve and [h] throws. *)
Lemma suite_try_hook_throws suite (test : node) (st0 st1 : state) hs1 h hs2 err :
  node_hooks suite = hs1 ++ h :: hs2 ->
  run_hooks (node_name suite) 0 hs1 st0 = Done None st1 ->
  snd (h (world st1)) = Some err ->
  suite_try suite test st0
  = Done (Some err)
         (set_world (fst (h (world st1)))
                    (log (CallHook (node_name suite) (length hs1)) st1))
  /\ trace st1 = trace st0 ++ map (CallHook (node_name suite)) (seq 0 (length hs1)).
Proof.
  intros Hhooks H1 Hh. split.
  - unfold suite_try. rewrite Hhooks.
    unfold bind at 1. rewrite run_hooks_app. unfold bind at 1. rewrite H1.
    simpl. cbv [bind record_event await]. simpl. rewrite Hh. reflexivity.
  - destruct (run_hooks_spec (node_name suite) hs1 0 st0)
      as [r [st1' [Hrun [_ [_ [_ Ht]]]]]].
    rewrite H1 in Hrun. injection Hrun as <- <-.
    destruct Ht as [[_ Ht] | [j [Hr _]]]; [exact Ht | contradiction Hr; reflexivity].
Qed.

(** If a hook throws a value other than [undefined] and [null], the later
    hooks and the function of the case are not called, the case is counted
    as failed, and one record is appended, with the name of the case and
    the message of the hook's failure. *)
Lemma hook_failure_short_circuits
      suite indent (test : node) acc (st st1 : state) hs1 h hs2 m :
  node_hooks suite = hs1 ++ h :: hs2 ->
  run_hooks (node_name suite) 0 hs1 (log (start_of test) st) = Done None st1 ->
  snd (h (world st1)) = Some (Raised m) ->
  exists st',
    run_testCase suite indent test acc st
    = Done (mkResult (passed acc) (S (failed acc))) st' /\
    trace st' = trace st ++ start_of test
                :: map (CallHook (node_name suite)) (seq 0 (S (length hs1))) /\
    failures st'
    = failures st ++ [mkFailure (failureIndex st) (node_name test)
                                (or_default m "undefined") (indent + 1)
                                (assertion_prefix ^^ or_default m "No message")].
Proof.
  intros Hhooks H1 Hh.
  destruct (suite_try_hook_throws suite test _ _ _ _ _ _ Hhooks H1 Hh)
    as [Htry Ht].
  destruct (run_testCase_caught suite indent test acc st _ m Htry) as [Hrun Hf].
  eexists. split; [exact Hrun |]. cbn [trace failures bump push print set_world log].
  split.
  - rewrite Ht. cbn [trace log]. rewrite seq_S, map_app, <- !app_assoc.
    reflexivity.
  - cbn [failures set_world log] in Hf. rewrite Hf. reflexivity.
Qed.

(** If the hook throws [undefined] or [null], the [catch] block itself
    throws while it builds the record: nothing is recorded and the run is
    aborted. *)
Lemma hook_nullish_aborts
      suite indent (test : node) acc (st st1 : state) hs1 h hs2 :
  node_hooks suite = hs1 ++ h :: hs2 ->
  run_hooks (node_name suite) 0 hs1 (log (start_of test) st) = Done None st1 ->
  snd (h (world st1)) = Some Nullish ->
  exists st',
    run_testCase suite indent test acc st = Abort st' /\
    failures st' = failures st /\ failureIndex st' = failureIndex st.
Proof.
  intros Hhooks H1 Hh.
  destruct (suite_try_hook_throws suite test _ _ _ _ _ _ Hhooks H1 Hh)
    as [Htry _].
  destruct (suite_try_engine _ _ _ _ _ Htry) as [_ [Hi Hf]].
  unfold start_of in Htry. cbv [run_testCase bind record_event].
  rewrite Htry. eexists. split; [reflexivity |].
  cbn [failures failureIndex print]. auto.
Qed.
(** ** Exclusive mode *)

Lemma hasOnly_true_iff (l : list node) :
  hasOnly l = true <->
  (exists c, In c l /\ node_only c = true) \/
  (exists c g, In c l /\ In g (node_tests c) /\ node_only g = true).
Proof.
  unfold hasOnly. rewrite existsb_exists. split.
  - intros [c [Hc H]]. apply orb_true_iff in H. destruct H as [H | H].
    + left. exists c. auto.
    + apply andb_true_iff in H. destruct H as [_ H].
      apply existsb_exists in H. destruct H as [g [Hg H]].
      right. exists c, g. auto.
  - intros [[c [Hc H]] | [c [g [Hc [Hg H]]]]]; exists c; split; try assumption.
    + rewrite H. reflexivity.
    + apply orb_true_iff. right. destruct c as [name fn o | name tests hooks o].
      * destruct Hg.
      * simpl. apply existsb_exists. exists g. auto.
Qed.

Lemma hasOnly_child (l : list node) c :
  In c l -> node_only c = true -> hasOnly l = true.
Proof. intros Hc H. apply hasOnly_true_iff. left. exists c. auto. Qed.

(** A group marked [only] is always entered in exclusive mode: the caller
    has seen the mark among its own children. *)
Lemma invoked_only (tests : list node) s only :
  invoked tests s only -> node_only s = true -> only = true.
Proof.
  intros [s' Hs | parent only' s' _ _ Hs] Ho.
  - apply subSuites_In in Hs. eapply hasOnly_child; [apply Hs | exact Ho].
  - apply subSuites_In in Hs. unfold isOnly.
    rewrite (hasOnly_child _ _ (proj1 Hs) Ho). reflexivity.
Qed.

Lemma testCases_exclusive (s : node) only :
  isOnly s only = true ->
  testCases s only = filter (fun t => has_fn t && node_only t) (node_tests s).
Proof. intros H. unfold testCases. rewrite H. reflexivity. Qed.

Lemma hasRunnableTests_false_testCases (s : node) only :
  hasRunnableTests s only = false -> testCases s only = [].
Proof.
  unfold hasRunnableTests. intros H. apply orb_false_iff in H.
  destruct H as [H _]. destruct (testCases s only); [reflexivity | discriminate H].
Qed.

(** The flag of [runTests] is only ever set by a mark that exists; the
    converse fails from depth three on ([C1_deep_only_is_missed]). *)
Lemma node_only_any_only (t : node) : node_only t = true -> any_only t = true.
Proof.
  destruct t as [name fn o | name tests hooks o]; simpl; intros ->; reflexivity.
Qed.

Lemma hasOnly_any_only (l : list node) :
  hasOnly l = true -> existsb any_only l = true.
Proof.
  intros H. apply hasOnly_true_iff in H. apply existsb_exists.
  destruct H as [[c [Hc H]] | [c [g [Hc [Hg H]]]]]; exists c; split;
    try assumption.
  - apply node_only_any_only. exact H.
  - destruct c as [name fn o | name tests hooks o]; [destruct Hg |].
    simpl. apply orb_true_iff. right. apply existsb_exists. exists g.
    split; [exact Hg | apply node_only_any_only; exact H].
Qed.

(** ** Registration *)

Lemma registered_app (a b : list (registration W)) :
  registered (a ++ b) = registered a ++ registered b.
Proof. apply flat_map_app. Qed.

(** [beforeEach] outside any [describe] is ignored. *)
Lemma registered_beforeEach_top fn (calls : list (registration W)) :
  registered (beforeEach fn :: calls) = registered calls.
Proof. reflexivity. Qed.

(** The hooks of a suite are the [beforeEach] calls of its body, in the
    order of the calls, wherever they stand among the other calls. *)
Lemma hooks_of_app (a b : list (registration W)) :
  hooks_of (a ++ b) = hooks_of a ++ hooks_of b.
Proof. apply flat_map_app. Qed.

(** ** The host state *)

Lemma run_hooks_effect sname (hooks : list (callback W)) :
  forall k (st : state),
  exists r st1,
    run_hooks sname k hooks st = Done r st1 /\
    world st1 = fst (hooks_effect hooks (world st)) /\
    (r = None <-> snd (hooks_effect hooks (world st)) = false).
Proof.
  induction hooks as [| hook hooks IH]; intros k st.
  - exists None, st. simpl. repeat split; reflexivity.
  - simpl. cbv [bind record_event await]. simpl.
    destruct (snd (hook (world st))) as [err |] eqn:E.
    + eexists _, _. split; [reflexivity |]. simpl. split; [reflexivity |].
      split; discriminate.
    + destruct (IH (S k) (set_world (fst (hook (world st)))
                                    (log (CallHook sname k) st)))
        as [r [st1 [Hrun [Hw Hr]]]].
      exists r, st1. simpl in *. auto.
Qed.

(** One iteration of the case loop, however it ends. *)
Lemma run_testCase_world suite indent (test : node) acc (st : state) :
  world (final (run_testCase suite indent test acc st))
  = case_effect (node_hooks suite) test (world st).
Proof.
  destruct (run_hooks_effect (node_name suite) (node_hooks suite) 0
                             (log (StartTest (node_name test)) st))
    as [r [st1 [Hrun [Hw Hr]]]].
  simpl in Hw, Hr. unfold case_effect. rewrite <- Hw.
  cbv [run_testCase suite_try bind record_event]. rewrite Hrun.
  destruct r as [err |].
  - destruct (snd (hooks_effect (node_hooks suite) (world st))).
    + destruct err as [| m]; reflexivity.
    + destruct Hr as [_ Hr]. discriminate (Hr eq_refl).
  - destruct Hr as [Hr _]. rewrite (Hr eq_refl).
    destruct test as [name [fn |] o | name tests hooks o]; simpl.
    + cbv [bind record_event await]. simpl.
      destruct (snd (fn (world st1))) as [[| m] |]; reflexivity.
    + reflexivity.
    + reflexivity.
Qed.


Lemma for_each_world {T B} (body : T -> B -> M B) (f : T -> W -> W) l :
  (forall x, In x l -> forall acc st acc' st',
        body x acc st = Done acc' st' -> world st' = f x (world st)) ->
  forall acc st acc' st',
    for_each body l acc st = Done acc' st' ->
    world st' = fold_left (fun w x => f x w) l (world st).
Proof.
  induction l as [| x l IH]; intros Hbody acc st acc' st' Hrun; simpl in *.
  - injection Hrun as _ <-. reflexivity.
  - apply bind_Done in Hrun. destruct Hrun as [acc1 [st1 [H1 H2]]].
    apply (Hbody x (or_introl eq_refl)) in H1. rewrite <- H1.
    eapply IH; [| exact H2]. intros y Hy. apply Hbody. right. exact Hy.
Qed.

Lemma run_schedule_app (a b : list (list (callback W) * node)) w :
  run_schedule (a ++ b) w = run_schedule b (run_schedule a w).
Proof. apply fold_left_app. Qed.

Lemma run_schedule_cases hooks (l : list node) :
  forall w,
    run_schedule (map (pair hooks) l) w
    = fold_left (fun w' c => case_effect hooks c w') l w.
Proof.
  induction l as [| c l IH]; intros w; simpl; [reflexivity | apply IH].
Qed.

Lemma run_schedule_flat_map {T} (g : T -> list (list (callback W) * node)) l :
  forall w,
    run_schedule (flat_map g l) w
    = fold_left (fun w' x => run_schedule (g x) w') l w.
Proof.
  induction l as [| x l IH]; intros w; simpl; [reflexivity |].
  rewrite run_schedule_app. apply IH.
Qed.

Lemma suite_schedule_subSuites only (l : list node) :
  flat_map (suite_schedule only) (subSuites l) = flat_map (suite_schedule only) l.
Proof.
  induction l as [| t l IH]; simpl; [reflexivity |].
  destruct t as [name [fn |] o | name tests hooks o]; simpl.
  - exact IH.
  - exact IH.
  - rewrite IH. reflexivity.
Qed.

(** The schedule of a group, with the nested groups named. *)
Lemma suite_schedule_unfold only (s : node) :
  suite_schedule only s =
  if hasRunnableTests s only then
    map (pair (node_hooks s)) (testCases s only)
    ++ flat_map (suite_schedule (isOnly s only)) (subSuites (node_tests s))
  else [].
Proof.
  destruct s as [name fn o | name tests hooks o].
  - reflexivity.
  - rewrite suite_schedule_subSuites. reflexivity.
Qed.


Lemma fold_left_ext_in {T} (f g : W -> T -> W) l :
  (forall x, In x l -> forall w, f w x = g w x) ->
  forall w, fold_left f l w = fold_left g l w.
Proof.
  induction l as [| x l IH]; intros H w; simpl; [reflexivity |].
  rewrite (H x (or_introl eq_refl)). apply IH.
  intros y Hy. apply H. right. exact Hy.
Qed.

(** A group run to its end: its own cases, each after the group's own
    hooks, then the nested groups, each as its own schedule says. *)
Lemma runSuite_world_steps :
  forall (s : node) indent only st r st',
    runSuite s indent only st = Done r st' ->
    hasRunnableTests s only = true ->
    world st'
    = fold_left (fun w g => run_schedule (suite_schedule (isOnly s only) g) w)
                (subSuites (node_tests s))
                (fold_left (fun w c => case_effect (node_hooks s) c w)
                           (testCases s only) (world st)).
Proof.
  induction s as [name fn o | name tests hooks o IH] using node_induction;
    intros indent only st r st' Hrun Hrunnable.
  - discriminate Hrun.
  - rewrite runSuite_unfold, Hrunnable in Hrun. simpl in Hrun.
    apply bind_Done in Hrun. destruct Hrun as [u1 [st1 [H1 Hrun]]].
    apply bind_Done in Hrun. destruct Hrun as [u2 [st2 [H2 Hrun]]].
    apply bind_Done in Hrun. destruct Hrun as [acc [st3 [Hcases Hsubs]]].
    unfold console_log in H1. injection H1 as _ <-.
    unfold record_event in H2. injection H2 as _ <-.
    apply for_each_world
      with (f := fun c w => case_effect hooks c w) in Hcases.
    + apply for_each_world
        with (f := fun g w =>
                     run_schedule
                       (suite_schedule (isOnly (Suite name tests hooks o) only) g) w)
        in Hsubs.
      * simpl in Hcases. simpl node_tests. simpl node_hooks.
        rewrite Hsubs, Hcases. reflexivity.
      * intros x Hx acc0 st0 acc' st0' Hbody.
        apply bind_Done in Hbody. destruct Hbody as [r0 [st4 [Hsub Hret]]].
        injection Hret as _ <-. apply subSuites_In in Hx.
        rewrite Forall_forall in IH.
        destruct (hasRunnableTests x (isOnly (Suite name tests hooks o) only))
          eqn:Ex.
        -- rewrite (IH x (proj1 Hx) _ _ _ _ _ Hsub Ex).
           rewrite suite_schedule_unfold, Ex, run_schedule_app,
             run_schedule_cases, run_schedule_flat_map.
           reflexivity.
        -- rewrite suite_schedule_unfold, Ex.
           destruct x as [n f o' | n ts hs o']; [discriminate Hsub |].
           rewrite runSuite_unfold, Ex in Hsub. simpl in Hsub.
           injection Hsub as _ <-. reflexivity.
    + intros x Hx acc0 st0 acc' st0' Hbody.
      pose proof (run_testCase_world (Suite name tests hooks o) indent x acc0 st0)
        as Hw.
      rewrite Hbody in Hw. exact Hw.
Qed.



(** Hooks that all resolve: every one of them, in registration order, and
    then the action. *)
Lemma hooks_effect_resolved (hooks : list (callback W)) :
  forall w,
    snd (hooks_effect hooks w) = false ->
    fst (hooks_effect hooks w) = fold_left (fun w' h => fst (h w')) hooks w.
Proof.
  induction hooks as [| h hooks IH]; intros w H; simpl in *; [reflexivity |].
  destruct (snd (h w)); [discriminate H | apply IH; exact H].
Qed.



(** * The claims *)

(** C2, as amended.  For a group entered during a run of [runTests],
    exclusive mode is active exactly when the group is marked, the mode
    was inherited, a child is marked, or a child of a child is marked.
    When it is active the cases of the group that are executed, counted
    and reported in a run that returns are exactly its marked cases. *)
Theorem C2_exclusive_mode :
  forall (tests : list node) (s : node) only,
    invoked tests s only ->
    (isOnly s only = true <->
     node_only s = true \/ only = true \/
     (exists c, In c (node_tests s) /\ node_only c = true) \/
     (exists c g, In c (node_tests s) /\ In g (node_tests c) /\
                  node_only g = true)) /\
    (isOnly s only = true ->
     let own := filter (fun t => has_fn t && node_only t) (node_tests s) in
     testCases s only = own /\
     forall indent (st : state) r st',
       runSuite s indent only st = Done r st' ->
       (hasRunnableTests s only = false ->
        own = [] /\ r = mkResult 0 0 /\ st' = st) /\
       (hasRunnableTests s only = true ->
        visits (trace st')
        = visits (trace st)
          ++ EnterSuite (node_name s) :: map start_of own
          ++ flat_map (suite_order true) (subSuites (node_tests s)) /\
        passed r + failed r
        = length own
          + list_sum (map (suite_runnable true) (subSuites (node_tests s))) /\
        exists lines subs,
          out st' = out st ++ (repeat_string "  " indent ^^ node_name s)
                               :: lines ++ concat subs /\
          Forall2 (case_line (repeat_string "  " (indent + 1))) own lines /\
          Forall2 (suite_report (indent + 1) true)
                  (subSuites (node_tests s)) subs)).
Proof.
  intros tests s only Hinv. split.
  - unfold isOnly. rewrite orb_true_iff, hasOnly_true_iff. split.
    + intros [[H | H] | H]; auto.
    + intros [H | [H | [H | H]]]; auto.
      right. eapply invoked_only; eassumption.
  - intros Hex own. split; [apply testCases_exclusive; exact Hex |].
    intros indent st r st' Hrun. split.
    + intros Hskip. split.
      * unfold own. rewrite <- (testCases_exclusive _ _ Hex).
        apply hasRunnableTests_false_testCases. exact Hskip.
      * destruct s as [name fn o | name ts hooks o]; [discriminate Hrun |].
        rewrite runSuite_unfold, Hskip in Hrun. simpl in Hrun.
        injection Hrun as <- <-. auto.
    + intros Hrunnable. split; [| split].
      * destruct (produces_Done _ _ _ _ _ _ (runSuite_visits s indent only st) Hrun)
          as [tr [Hv <-]].
        rewrite Hv, suite_order_unfold, Hrunnable, Hex.
        rewrite (testCases_exclusive _ _ Hex). reflexivity.
      * apply runSuite_count in Hrun. rewrite Hrun.
        destruct s as [name fn o | name ts hooks o]; [discriminate Hrunnable |].
        simpl suite_runnable. rewrite Hrunnable, Hex.
        rewrite (testCases_exclusive _ _ Hex), suite_runnable_subSuites.
        reflexivity.
      * destruct (produces_Done _ _ _ _ _ _ (runSuite_report s indent only st) Hrun)
          as [tr [Ho Hrep]].
        inversion Hrep as [? ? ? Hskip | ? ? ? lines subs _ Hlines Hsubs]; subst.
        -- rewrite Hskip in Hrunnable. discriminate Hrunnable.
        -- exists lines, subs. rewrite Hex in Hsubs.
           rewrite (testCases_exclusive _ _ Hex) in Hlines. auto.
Qed.


(** C7. In one iteration of the case loop the hooks of the group are
    called in registration order on the host state, each on the state the
    one before left, and then the action of the case, on the state the
    last hook left; a hook that throws ends the iteration.  For hooks
    [h1; h2] that resolve and a case [c1] that is [h1], then [h2], then
    the action of [c1].  In a group run to its end that happens once for
    each of its cases, with the group's own hooks, and then each nested
    group is run, its cases after its own hooks and not after those of
    the enclosing group. *)
Theorem C7_hooks_before_each_case :
  (forall suite indent (test : node) acc (st : state),
      world (final (run_testCase suite indent test acc st))
      = case_effect (node_hooks suite) test (world st)) /\
  (forall (hooks : list (callback W)) name fn o w,
      snd (hooks_effect hooks w) = false ->
      case_effect hooks (Test name (Some fn) o) w
      = fst (fn (fold_left (fun w' h => fst (h w')) hooks w))) /\
  (forall (h1 h2 : callback W) name fn o w,
      snd (h1 w) = None -> snd (h2 (fst (h1 w))) = None ->
      case_effect [h1; h2] (Test name (Some fn) o) w
      = fst (fn (fst (h2 (fst (h1 w)))))) /\
  (forall (s : node) indent only (st : state) r st',
      runSuite s indent only st = Done r st' ->
      hasRunnableTests s only = true ->
      world st'
      = fold_left (fun w g => run_schedule (suite_schedule (isOnly s only) g) w)
                  (subSuites (node_tests s))
                  (fold_left (fun w c => case_effect (node_hooks s) c w)
                             (testCases s only) (world st))).
Proof.
  split; [exact run_testCase_world |]. split; [| split].
  - intros hooks name fn o w H. unfold case_effect.
    rewrite H, (hooks_effect_resolved hooks w H). reflexivity.
  - intros h1 h2 name fn o w H1 H2. unfold case_effect. simpl.
    rewrite H1, H2. reflexivity.
  - exact runSuite_world_steps.
Qed.

(** C8, as amended.  When the [try] block of a case throws a value other
    than [undefined] and [null], one record is appended for the case; its
    message is the value's message field when that is present and not
    empty, and the placeholder [undefined] otherwise.  The detail string,
    which is what the trailing block shows, does not use that placeholder:
    it carries the same message, or [No message]. *)
Theorem C8_failure_message :
  (forall suite indent (test : node) acc (st st1 : state) m,
      suite_try suite test (log (start_of test) st) = Done (Some (Raised m)) st1 ->
      exists f st',
        run_testCase suite indent test acc st
        = Done (mkResult (passed acc) (S (failed acc))) st' /\
        failures st' = failures st ++ [f] /\
        fname f = node_name test /\ index f = failureIndex st /\
        (forall s, m = Some s -> s <> "" ->
                   message f = s /\ details f = assertion_prefix ^^ s) /\
        (m = None \/ m = Some "" ->
         message f = "undefined" /\
         details f = assertion_prefix ^^ "No message")) /\
  (forall isOnly (test : node) acc (st st1 : state) m,
      isOnly && negb (node_only test) = false ->
      call_fn test (log (start_of test) st) = Done (Some (Raised m)) st1 ->
      exists f st',
        run_topLevelTest isOnly test acc st
        = Done (mkResult (passed acc) (S (failed acc))) st' /\
        failures st' = failures st ++ [f] /\
        fname f = node_name test /\ index f = failureIndex st /\
        (forall s, m = Some s -> s <> "" ->
                   message f = s /\ details f = assertion_prefix ^^ s) /\
        (m = None \/ m = Some "" ->
         message f = "undefined" /\
         details f = assertion_prefix ^^ "No message")) /\
  (forall (tests : list node) (st : state) r st',
      runTests tests st = Done r st' -> 0 < failed r ->
      forall f, In f (failures st') -> In ("      " ^^ details f) (out st')).
Proof.
  split; [| split].
  - intros suite indent test acc st st1 m Htry.
    destruct (run_testCase_caught suite indent test acc st st1 m Htry)
      as [Hrun Hf].
    eexists _, _. split; [exact Hrun |].
    split; [cbn [failures bump push print]; rewrite Hf; reflexivity |].
    split; [reflexivity |]. split; [reflexivity |]. split.
    + intros s -> Hs. cbn [message details].
      rewrite !(or_default_present _ _ Hs). split; reflexivity.
    + intros Hm. cbn [message details].
      rewrite !(or_default_missing _ _ Hm). split; reflexivity.
  - intros isOnly test acc st st1 m Hskip Hcall.
    destruct (run_topLevelTest_caught isOnly test acc st st1 m Hskip Hcall)
      as [Hrun Hf].
    eexists _, _. split; [exact Hrun |].
    split; [cbn [failures bump push print]; rewrite Hf; reflexivity |].
    split; [reflexivity |]. split; [reflexivity |]. split.
    + intros s -> Hs. cbn [message details].
      rewrite !(or_default_present _ _ Hs). split; reflexivity.
    + intros Hm. cbn [message details].
      rewrite !(or_default_missing _ _ Hm). split; reflexivity.
  - apply runTests_block.
Qed.

(** C9. For the forest [a; G [b; c]] where [a] and [c] pass and [b] fails
    with the message [boom], started with the module's initial values, the
    run prints the pass line of [a], the line of [G] indented once, the
    line [1) b] and the pass line of [c] indented twice, the summary with
    2 passing and 1 failing, and the block of failure 1, which names [b]
    and carries [boom]. *)
Theorem C9_concrete_scenario :
  forall (fa fb fc : callback W) (st : state),
    (forall w, snd (fa w) = None) ->
    (forall w, snd (fb w) = Some (Raised (Some "boom"))) ->
    (forall w, snd (fc w) = None) ->
    failureIndex st = 1 -> failures st = [] ->
    exists st',
      runTests [Test "a" (Some fa) false;
                Suite "G" [Test "b" (Some fb) false; Test "c" (Some fc) false] [] false] st
      = Done (mkResult 2 1) st' /\
      out st' = out st ++
                ["✓ a"; "  G"; "    1) b"; "    ✓ c";
                 nl ^^ "  2 passing"; "  1 failing";
                 nl ^^ "  1) b:" ^^ nl;
                 "      AssertionError [ERR_ASSERTION]: boom"].
Proof.
  intros fa fb fc st Ha Hb Hc Hi Hf.
  unfold runTests. simpl.
  cbv [bind run_topLevelTest run_testCase suite_try run_hooks call_fn
       record_event await ret console_log suite_catch get_failureIndex
       failures_push failureIndex_incr].
  simpl. rewrite Ha. simpl. rewrite Hb. simpl. rewrite Hc. simpl.
  rewrite report_spec. simpl. rewrite Hi, Hf. simpl.
  eexists. split; [reflexivity |]. simpl. rewrite <- !app_assoc. reflexivity.
Qed.

(** C10, as amended.  When the [try] block of a case throws a value other
    than [undefined] and [null], the detail string of its record is
    [AssertionError [ERR_ASSERTION]: ] followed by the value's message
    field, or by [No message] when the field is absent or empty; the label
    is the same whatever was thrown, and in the second case the message of
    the record is [undefined], another text than [No message]. *)
Theorem C10_failure_details :
  (forall suite indent (test : node) acc (st st1 : state) m,
      suite_try suite test (log (start_of test) st) = Done (Some (Raised m)) st1 ->
      exists f st',
        run_testCase suite indent test acc st
        = Done (mkResult (passed acc) (S (failed acc))) st' /\
        failures st' = failures st ++ [f] /\
        ((exists s, m = Some s /\ s <> "" /\
                    details f = "AssertionError [ERR_ASSERTION]: " ^^ s) \/
         ((m = None \/ m = Some "") /\
          details f = "AssertionError [ERR_ASSERTION]: No message" /\
          message f = "undefined" /\ message f <> "No message"))) /\
  (forall isOnly (test : node) acc (st st1 : state) m,
      isOnly && negb (node_only test) = false ->
      call_fn test (log (start_of test) st) = Done (Some (Raised m)) st1 ->
      exists f st',
        run_topLevelTest isOnly test acc st
        = Done (mkResult (passed acc) (S (failed acc))) st' /\
        failures st' = failures st ++ [f] /\
        ((exists s, m = Some s /\ s <> "" /\
                    details f = "AssertionError [ERR_ASSERTION]: " ^^ s) \/
         ((m = None \/ m = Some "") /\
          details f = "AssertionError [ERR_ASSERTION]: No message" /\
          message f = "undefined" /\ message f <> "No message"))).
Proof.
  assert (Hcases : forall m : option string,
             (exists s, m = Some s /\ s <> "") \/ (m = None \/ m = Some "")).
  { intros [s |]; [| auto]. destruct (String.eqb_spec s "") as [-> | Hs]; [auto |].
    left. exists s. auto. }
  split.
  - intros suite indent test acc st st1 m Htry.
    destruct (run_testCase_caught suite indent test acc st st1 m Htry)
      as [Hrun Hf].
    eexists _, _. split; [exact Hrun |].
    split; [cbn [failures bump push print]; rewrite Hf; reflexivity |].
    cbn [message details].
    destruct (Hcases m) as [[s [-> Hs]] | Hm].
    + left. exists s. rewrite (or_default_present _ _ Hs). auto.
    + right. rewrite !(or_default_missing _ _ Hm).
      repeat split; [exact Hm | discriminate].
  - intros isOnly test acc st st1 m Hskip Hcall.
    destruct (run_topLevelTest_caught isOnly test acc st st1 m Hskip Hcall)
      as [Hrun Hf].
    eexists _, _. split; [exact Hrun |].
    split; [cbn [failures bump push print]; rewrite Hf; reflexivity |].
    cbn [message details].
    destruct (Hcases m) as [[s [-> Hs]] | Hm].
    + left. exists s. rewrite (or_default_present _ _ Hs). auto.
    + right. rewrite !(or_default_missing _ _ Hm).
      repeat split; [exact Hm | discriminate].
Qed.

(** * Further properties of the runner *)

(** ** A relation kept by every step of a run *)

Section RunInvariant.
Variable R : state -> state -> Prop.
Variable ok : node -> Prop.

Hypothesis R_refl : forall st, R st st.
Hypothesis R_trans : forall a b c, R a b -> R b c -> R a c.
Hypothesis R_print : forall line st, R st (print line st).
Hypothesis R_log : forall e st, R st (log e st).
Hypothesis ok_tests : forall s c, ok s -> In c (node_tests s) -> ok c.
Hypothesis R_case :
  forall suite indent test acc st,
    ok suite -> ok test -> has_fn test = true ->
    R st (final (run_testCase suite indent test acc st)).
Hypothesis R_top :
  forall isOnly test acc st,
    ok test -> has_fn test = true ->
    R st (final (run_topLevelTest isOnly test acc st)).

Lemma R_bind {A B} (m : M A) (k : A -> M B) st :
  R st (final (m st)) ->
  (forall a st1, m st = Done a st1 -> R st1 (final (k a st1))) ->
  R st (final (bind m k st)).
Proof.
  intros Hm Hk. unfold bind. destruct (m st) as [a st1 | st1]; simpl in *.
  - eapply R_trans; [exact Hm | apply Hk; reflexivity].
  - exact Hm.
Qed.

Lemma R_for_each {T B} (body : T -> B -> M B) l :
  (forall x, In x l -> forall acc st, R st (final (body x acc st))) ->
  forall acc st, R st (final (for_each body l acc st)).
Proof.
  induction l as [| x l IH]; intros Hbody acc st; simpl.
  - apply R_refl.
  - apply R_bind.
    + apply Hbody. left. reflexivity.
    + intros acc1 st1 _. apply IH. intros y Hy. apply Hbody. right. exact Hy.
Qed.

Lemma runSuite_R :
  forall s, ok s -> forall indent only st,
      R st (final (runSuite s indent only st)).
Proof.
  induction s as [name fn o | name tests hooks o IH] using node_induction;
    intros Hok indent only st.
  - apply R_refl.
  - rewrite runSuite_unfold.
    destruct (hasRunnableTests (Suite name tests hooks o) only); simpl.
    + apply R_bind; [apply R_print |]. intros _ st1 _.
      apply R_bind; [apply R_log |]. intros _ st2 _.
      apply R_bind.
      * apply R_for_each. intros x Hx acc st3.
        assert (Hin : In x tests).
        { unfold testCases in Hx. apply filter_In in Hx. apply Hx. }
        apply R_case; [exact Hok | | eapply testCases_has_fn; exact Hx].
        apply (ok_tests (Suite name tests hooks o) x Hok Hin).
      * intros acc st3 _. apply R_for_each. intros x Hx acc' st4.
        apply subSuites_In in Hx. destruct Hx as [Hx _].
        apply R_bind.
        -- rewrite Forall_forall in IH. apply (IH x Hx).
           apply (ok_tests (Suite name tests hooks o) x Hok Hx).
        -- intros r st5 _. apply R_refl.
    + apply R_refl.
Qed.

Lemma R_print_failures l : forall st, R st (final (print_failures l st)).
Proof.
  induction l as [| f l IH]; intros st; simpl.
  - apply R_refl.
  - apply R_bind.
    + unfold print_failure. apply R_bind; [apply R_print |].
      intros _ st1 _. apply R_print.
    + intros _ st1 _. apply IH.
Qed.

Lemma report_R total st : R st (final (report total st)).
Proof.
  unfold report. apply R_bind; [apply R_print |]. intros _ st1 _.
  destruct (Nat.ltb 0 (failed total)).
  - apply R_bind; [apply R_print |]. intros _ st2 _. apply R_print_failures.
  - apply R_refl.
Qed.

Lemma runTests_R (tests : list node) st :
  Forall ok tests -> R st (final (runTests tests st)).
Proof.
  intros Hok. rewrite Forall_forall in Hok. unfold runTests.
  apply R_bind.
  - apply R_for_each. intros x Hx acc st1.
    unfold topLevelTests in Hx. apply filter_In in Hx.
    apply R_top; [apply Hok |]; apply Hx.
  - intros acc st1 _. apply R_bind.
    + apply R_for_each. intros x Hx acc' st2. apply subSuites_In in Hx.
      apply R_bind.
      * apply runSuite_R. apply Hok. apply Hx.
      * intros r st3 _. apply R_refl.
    + intros total st2 _. apply R_bind; [apply report_R |].
      intros _ st3 _. apply R_refl.
Qed.
End RunInvariant.

(** ** The numbering of the failures *)

Lemma numbered_refl (st : state) : numbered st st.
Proof.
  exists []. rewrite app_nil_r. simpl. rewrite Nat.add_0_r. auto.
Qed.

Lemma numbered_trans (a b c : state) :
  numbered a b -> numbered b c -> numbered a c.
Proof.
  intros [n1 [Hf1 [Hi1 Hx1]]] [n2 [Hf2 [Hi2 Hx2]]].
  exists (n1 ++ n2). rewrite Hf2, Hf1, Hx2, Hx1, <- app_assoc.
  split; [reflexivity |]. rewrite map_app, length_app, seq_app, Hi1, Hi2, Hx1.
  split; [reflexivity | lia].
Qed.

Lemma numbered_same (st st' : state) :
  failures st' = failures st -> failureIndex st' = failureIndex st ->
  numbered st st'.
Proof.
  intros Hf Hi. exists []. rewrite app_nil_r. simpl. rewrite Nat.add_0_r. auto.
Qed.

Lemma numbered_case suite indent (test : node) acc (st : state) :
  has_fn test = true ->
  numbered st (final (run_testCase suite indent test acc st)).
Proof.
  intros Hfn.
  destruct (run_testCase_spec suite indent test acc st Hfn)
    as [st1 [seg [_ [Hi [Hf [_ [_ Hrun]]]]]]].
  destruct Hrun as [[_ [_ ->]] | [[m [_ ->]] | [_ ->]]]; simpl.
  - apply numbered_same; assumption.
  - eexists [_]. simpl. rewrite Hf, Hi. repeat split. lia.
  - apply numbered_same; assumption.
Qed.

Lemma numbered_top isOnly (test : node) acc (st : state) :
  has_fn test = true ->
  numbered st (final (run_topLevelTest isOnly test acc st)).
Proof.
  intros Hfn. destruct (isOnly && negb (node_only test)) eqn:Hskip.
  - rewrite (run_topLevelTest_skip _ _ _ _ Hskip). apply numbered_refl.
  - destruct (run_topLevelTest_spec isOnly test acc st Hfn Hskip)
      as [st1 [_ [Hi [Hf [_ Hrun]]]]].
    destruct Hrun as [[_ ->] | [[m [_ ->]] | [_ ->]]]; simpl.
    + apply numbered_same; assumption.
    + eexists [_]. simpl. rewrite Hf, Hi. repeat split. lia.
    + apply numbered_same; assumption.
Qed.

Lemma runTests_numbered (tests : list node) (st : state) :
  numbered st (final (runTests tests st)).
Proof.
  apply runTests_R with (ok := fun _ => True).
  - apply numbered_refl.
  - apply numbered_trans.
  - intros line st0. apply numbered_same; reflexivity.
  - intros e st0. apply numbered_same; reflexivity.
  - auto.
  - intros suite indent test acc st0 _ _. apply numbered_case.
  - intros isOnly test acc st0 _. apply numbered_top.
  - apply Forall_forall. auto.
Qed.

Lemma runSuite_numbered (s : node) indent only (st : state) :
  numbered st (final (runSuite s indent only st)).
Proof.
  apply runSuite_R with (ok := fun _ => True).
  - apply numbered_refl.
  - apply numbered_trans.
  - intros line st0. apply numbered_same; reflexivity.
  - intros e st0. apply numbered_same; reflexivity.
  - auto.
  - intros suite indent0 test acc st0 _ _. apply numbered_case.
  - exact I.
Qed.

(** X3. Whatever the forest and however the run ends, the records it
    appends to [failures] carry consecutive indices that start at the
    [failureIndex] it found, in the order of the list, and [failureIndex]
    has advanced by their number; the records that were there are kept. *)
Theorem failure_indices_consecutive :
  (forall (tests : list node) (st : state),
      numbered st (final (runTests tests st))) /\
  (forall (s : node) indent only (st : state),
      numbered st (final (runSuite s indent only st))).
Proof.
  split; [exact runTests_numbered | exact runSuite_numbered].
Qed.


(** ** The failing total and the records *)

Lemma for_each_failed {T} (body : T -> result -> M result) l :
  (forall x, In x l -> forall acc st acc' st',
        body x acc st = Done acc' st' ->
        failed acc' + length (failures st) = failed acc + length (failures st')) ->
  forall acc st acc' st',
    for_each body l acc st = Done acc' st' ->
    failed acc' + length (failures st) = failed acc + length (failures st').
Proof.
  induction l as [| x l IH]; intros Hbody acc st acc' st' Hrun; simpl in *.
  - injection Hrun as <- <-. reflexivity.
  - apply bind_Done in Hrun. destruct Hrun as [acc1 [st1 [H1 H2]]].
    apply (Hbody x (or_introl eq_refl)) in H1.
    apply IH in H2; [lia |].
    intros y Hy. apply Hbody. right. exact Hy.
Qed.

Lemma run_testCase_failed suite indent (test : node) acc st acc' st' :
  has_fn test = true ->
  run_testCase suite indent test acc st = Done acc' st' ->
  failed acc' + length (failures st) = failed acc + length (failures st').
Proof.
  intros Hfn Hrun.
  destruct (run_testCase_spec suite indent test acc st Hfn)
    as [st1 [seg [_ [_ [Hf [_ [_ H]]]]]]].
  destruct H as [[_ [_ H]] | [[m [_ H]] | [_ H]]];
    rewrite H in Hrun; [ | | discriminate Hrun];
    injection Hrun as <- <-; simpl; rewrite Hf; [| rewrite length_app; simpl];
    lia.
Qed.

Lemma run_topLevelTest_failed isOnly (test : node) acc st acc' st' :
  has_fn test = true ->
  run_topLevelTest isOnly test acc st = Done acc' st' ->
  failed acc' + length (failures st) = failed acc + length (failures st').
Proof.
  intros Hfn Hrun. destruct (isOnly && negb (node_only test)) eqn:Hskip.
  - rewrite (run_topLevelTest_skip _ _ _ _ Hskip) in Hrun.
    injection Hrun as <- <-. reflexivity.
  - destruct (run_topLevelTest_spec isOnly test acc st Hfn Hskip)
      as [st1 [_ [_ [Hf [_ H]]]]].
    destruct H as [[_ H] | [[m [_ H]] | [_ H]]];
      rewrite H in Hrun; [ | | discriminate Hrun];
      injection Hrun as <- <-; simpl; rewrite Hf; [| rewrite length_app; simpl];
      lia.
Qed.

Lemma runSuite_failed :
  forall (s : node) indent only st r st',
    runSuite s indent only st = Done r st' ->
    failed r + length (failures st) = length (failures st').
Proof.
  induction s as [name fn o | name tests hooks o IH] using node_induction;
    intros indent only st r st' Hrun.
  - discriminate Hrun.
  - rewrite runSuite_unfold in Hrun.
    destruct (hasRunnableTests (Suite name tests hooks o) only); simpl in Hrun.
    + apply bind_Done in Hrun. destruct Hrun as [u1 [st1 [H1 Hrun]]].
      apply bind_Done in Hrun. destruct Hrun as [u2 [st2 [H2 Hrun]]].
      apply bind_Done in Hrun. destruct Hrun as [acc [st3 [Hcases Hsubs]]].
      unfold console_log in H1. injection H1 as _ <-.
      unfold record_event in H2. injection H2 as _ <-.
      apply for_each_failed in Hcases.
      * apply for_each_failed in Hsubs; [simpl in *; lia |].
        intros x Hx acc0 st0 acc' st0' Hbody.
        apply bind_Done in Hbody. destruct Hbody as [r0 [st4 [Hsub Hret]]].
        injection Hret as <- <-. apply subSuites_In in Hx.
        rewrite Forall_forall in IH.
        apply (IH x (proj1 Hx)) in Hsub. simpl. lia.
      * intros x Hx acc0 st0 acc' st0' Hbody.
        eapply run_testCase_failed; [| exact Hbody].
        eapply testCases_has_fn. exact Hx.
    + injection Hrun as <- <-. reflexivity.
Qed.

Lemma runTests_failed (tests : list node) st r st' :
  runTests tests st = Done r st' ->
  length (failures st') = length (failures st) + failed r.
Proof.
  intros Hrun. apply runTests_inv in Hrun.
  destruct Hrun as [acc [st1 [st2 [H1 [H2 ->]]]]]. simpl.
  apply for_each_failed in H1.
  - apply for_each_failed in H2; [simpl in *; lia |].
    intros x Hx acc0 st0 acc' st0' Hbody.
    apply bind_Done in Hbody. destruct Hbody as [r0 [st4 [Hsub Hret]]].
    injection Hret as <- <-. apply runSuite_failed in Hsub. simpl. lia.
  - intros x Hx acc0 st0 acc' st0' Hbody.
    eapply run_topLevelTest_failed; [| exact Hbody].
    unfold topLevelTests in Hx. apply filter_In in Hx. apply Hx.
Qed.

(** X4. When [runTests] returns, the failing total it reports is the
    number of records the run appended; started from the module's initial
    values ([failures] empty, [failureIndex] 1), the records are numbered
    1, 2, ... up to that total, in the order recorded, which is the order
    of the trailing block. *)
Theorem failing_total_counts_records :
  forall (tests : list node) (st : state) r st',
    runTests tests st = Done r st' ->
    length (failures st') = length (failures st) + failed r /\
    (failures st = [] -> failureIndex st = 1 ->
     map index (failures st') = seq 1 (failed r) /\
     failureIndex st' = 1 + failed r).
Proof.
  intros tests st r st' Hrun.
  pose proof (runTests_failed tests st r st' Hrun) as Hlen.
  split; [exact Hlen |]. intros Hf Hi.
  destruct (runTests_numbered tests st) as [new [Hnew [Hidx Hnext]]].
  rewrite Hrun in Hnew, Hnext. simpl in Hnew, Hnext.
  rewrite Hf in Hnew, Hlen. simpl in Hnew, Hlen. rewrite Hi in Hidx, Hnext.
  rewrite Hnew in Hlen |- *. rewrite <- Hlen. auto.
Qed.

(** ** The lines of a whole run *)

(** X5. What a call of [runSuite] prints has the form [suite_report]:
    nothing for a group that fails the runnable-content check; otherwise
    one line with the group's name after two spaces per level, one line
    per case of [testCases], one level deeper, with the pass mark or a
    failure index before the name, then the reports of the nested groups.
    An aborted call leaves an initial part of such a report. *)
Theorem group_report_form :
  forall (s : node) indent only (st : state),
  exists lines rest,
    out (final (runSuite s indent only st)) = out st ++ lines /\
    suite_report indent only s (lines ++ rest) /\
    (completed (runSuite s indent only st) -> rest = []).
Proof.
  intros s indent only st. apply runSuite_report.
Qed.

Lemma run_topLevelTest_report isOnly (test : node) acc (st : state) :
  has_fn test = true ->
  produces (@out W) (run_topLevelTest isOnly test acc st) st
           (fun t => if isOnly && negb (node_only test) then t = []
                     else exists line, t = [line] /\ top_line test line).
Proof.
  intros Hfn. destruct (isOnly && negb (node_only test)) eqn:Hskip.
  - rewrite (run_topLevelTest_skip _ _ _ _ Hskip).
    exists [], []. simpl. rewrite app_nil_r. auto.
  - destruct (run_topLevelTest_spec isOnly test acc st Hfn Hskip)
      as [st1 [Ho [_ [_ [_ Hrun]]]]].
    destruct Hrun as [[_ ->] | [[m [_ ->]] | [_ ->]]];
      eexists [_], [];
      (split; [simpl; rewrite Ho; reflexivity |]); (split; [| reflexivity]);
      eexists; (split; [reflexivity |]).
    + left. reflexivity.
    + right. eexists. reflexivity.
    + right. eexists. reflexivity.
Qed.

Lemma cat_each_skipping {X T} (p : T -> bool) (R : T -> X -> Prop) l t :
  cat_each (fun x t => if p x then t = [] else exists y, t = [y] /\ R x y) l t ->
  Forall2 R (filter (fun x => negb (p x)) l) t.
Proof.
  intros [ts [H ->]]. induction H as [| x t l ts Hx H IH]; simpl.
  - constructor.
  - destruct (p x); simpl.
    + subst t. exact IH.
    + destruct Hx as [y [-> Hy]]. constructor; assumption.
Qed.


(** ** Runs that return, and runs without a failure *)

(** X7. Failures do not stop a run: if every case of the forest has a
    function and no callback ever throws [undefined] or [null],
    [runTests] returns, whichever callbacks throw a value with or without
    a message, and the last thing it prints is the summary for the totals
    it returns. *)
Theorem run_returns_with_summary :
  forall (tests : list node) (st : state),
    Forall gentle_node tests ->
    exists r st',
      runTests tests st = Done r st' /\
      exists before, out st' = before ++ report_lines r (failures st').
Proof.
  intros tests st Hgentle.
  destruct (runTests_completed tests st Hgentle) as [r [st' Hrun]].
  exists r, st'. split; [exact Hrun |].
  apply runTests_inv in Hrun. destruct Hrun as [acc [st1 [st2 [_ [_ ->]]]]].
  exists (out st2). reflexivity.
Qed.

Lemma quiet_gentle (f : callback W) : quiet f -> gentle f.
Proof. intros H w. rewrite H. discriminate. Qed.

Lemma quiet_node_gentle : forall t : node, quiet_node t -> gentle_node t.
Proof.
  induction t as [name fn o | name tests hooks o IH] using node_induction;
    intros Hq; inversion Hq as [? ? ? Hfn | ? ? ? ? Hhooks Htests]; subst.
  - apply gentle_test. apply quiet_gentle. exact Hfn.
  - apply gentle_suite.
    + eapply Forall_impl; [| exact Hhooks]. apply quiet_gentle.
    + rewrite Forall_forall in *. intros x Hx. apply (IH x Hx). apply Htests.
      exact Hx.
Qed.

Lemma run_hooks_quiet sname (hooks : list (callback W)) :
  Forall quiet hooks ->
  forall k st r st1, run_hooks sname k hooks st = Done r st1 -> r = None.
Proof.
  induction 1 as [| hook hooks Hhook _ IH]; intros k st r st1 Hrun.
  - injection Hrun as <- _. reflexivity.
  - simpl in Hrun. cbv [bind record_event await] in Hrun. simpl in Hrun.
    rewrite Hhook in Hrun. eapply IH. exact Hrun.
Qed.

Lemma suite_try_quiet suite (test : node) st r st1 :
  has_fn test = true -> quiet_node test -> Forall quiet (node_hooks suite) ->
  suite_try suite test st = Done r st1 -> r = None.
Proof.
  intros Hfn Htest Hhooks Hrun. unfold suite_try in Hrun.
  apply bind_Done in Hrun. destruct Hrun as [h [st0 [Hh Hrun]]].
  apply (run_hooks_quiet _ _ Hhooks) in Hh. subst h.
  destruct Htest as [name fn o Hq | ]; [| discriminate Hfn].
  cbv [call_fn bind record_event await] in Hrun. injection Hrun as <- _.
  apply Hq.
Qed.

Lemma quiet_node_hooks (s : node) : quiet_node s -> Forall quiet (node_hooks s).
Proof. intros [name fn o _ | name tests hooks o Hh _]; [constructor | exact Hh]. Qed.

Lemma quiet_node_tests (s c : node) :
  quiet_node s -> In c (node_tests s) -> quiet_node c.
Proof.
  intros [name fn o _ | name tests hooks o _ Ht] Hc; [destruct Hc |].
  rewrite Forall_forall in Ht. apply Ht. exact Hc.
Qed.

Lemma runTests_quiet_failures (tests : list node) (st : state) :
  Forall quiet_node tests ->
  failures (final (runTests tests st)) = failures st /\
  failureIndex (final (runTests tests st)) = failureIndex st.
Proof.
  intros Hq.
  apply runTests_R
    with (R := fun a b : state => failures b = failures a /\
                                  failureIndex b = failureIndex a)
         (ok := quiet_node); try exact Hq.
  - auto.
  - intros a b c [H1 H2] [H3 H4]. rewrite H3, H4. auto.
  - auto.
  - auto.
  - apply quiet_node_tests.
  - intros suite indent test acc st0 Hs Ht Hfn.
    destruct (run_testCase_spec suite indent test acc st0 Hfn)
      as [st1 [seg [_ [Hi [Hf [_ [_ Hrun]]]]]]].
    destruct Hrun as [[_ [_ ->]] | [[m [Htry _]] | [Htry _]]].
    + simpl. auto.
    + apply (suite_try_quiet _ _ _ _ _ Hfn Ht (quiet_node_hooks _ Hs)) in Htry.
      discriminate Htry.
    + apply (suite_try_quiet _ _ _ _ _ Hfn Ht (quiet_node_hooks _ Hs)) in Htry.
      discriminate Htry.
  - intros isOnly test acc st0 Ht Hfn.
    destruct (isOnly && negb (node_only test)) eqn:Hskip.
    + rewrite (run_topLevelTest_skip _ _ _ _ Hskip). auto.
    + destruct (run_topLevelTest_spec isOnly test acc st0 Hfn Hskip)
        as [st1 [_ [Hi [Hf [_ Hrun]]]]].
      assert (Hnone : forall r st2,
                 call_fn test (log (start_of test) st0) = Done r st2 -> r = None).
      { intros r st2 Hcall.
        destruct Ht as [name fn o Hfnq | ]; [| discriminate Hfn].
        cbv [call_fn bind record_event await] in Hcall.
        injection Hcall as <- _. apply Hfnq. }
      destruct Hrun as [[_ ->] | [[m [Hcall _]] | [Hcall _]]].
      * simpl. auto.
      * apply Hnone in Hcall. discriminate Hcall.
      * apply Hnone in Hcall. discriminate Hcall.
Qed.

(** X10. If every case of the forest has a function and every callback
    resolves, [runTests] returns with no failure: the failing total is 0,
    the passing total is the number of cases the code's filter selects,
    [failures] and [failureIndex] are as they were, and the summary is the
    passing line alone. *)
Theorem clean_run_reports_no_failure :
  forall (tests : list node) (st : state),
    Forall quiet_node tests ->
    exists st',
      runTests tests st = Done (mkResult (forest_runnable tests) 0) st' /\
      failures st' = failures st /\
      failureIndex st' = failureIndex st /\
      exists before,
        out st' = before ++ [nl ^^ "  " ^^ string_of_nat (forest_runnable tests)
                                ^^ " passing"].
Proof.
  intros tests st Hq.
  destruct (runTests_completed tests st) as [r [st' Hrun]].
  { eapply Forall_impl; [| exact Hq]. apply quiet_node_gentle. }
  destruct (runTests_quiet_failures tests st Hq) as [Hf Hi].
  rewrite Hrun in Hf, Hi. simpl in Hf, Hi.
  pose proof (runTests_failed tests st r st' Hrun) as Hlen.
  pose proof (runTests_count tests st r st' Hrun) as Hcount.
  rewrite Hf in Hlen.
  assert (Hfailed : failed r = 0) by lia.
  assert (Hr : r = mkResult (forest_runnable tests) 0).
  { destruct r as [p f]. simpl in *. subst f. f_equal. lia. }
  subst r. exists st'. split; [exact Hrun |]. split; [exact Hf |].
  split; [exact Hi |].
  apply runTests_inv in Hrun. destruct Hrun as [acc [st1 [st2 [_ [_ ->]]]]].
  exists (out st2). reflexivity.
Qed.

(** ** A forest without any mark *)

Lemma any_only_children name (tests : list node) hooks o :
  any_only (Suite name tests hooks o) = false ->
  forall c, In c tests -> any_only c = false.
Proof.
  simpl. intros H c Hc. apply orb_false_iff in H. destruct H as [_ H].
  destruct (any_only c) eqn:E; [| reflexivity].
  rewrite <- H. symmetry. apply existsb_exists. exists c. auto.
Qed.

Lemma unmarked_hasOnly (l : list node) :
  (forall c, In c l -> any_only c = false) -> hasOnly l = false.
Proof.
  intros H. destruct (hasOnly l) eqn:E; [| reflexivity].
  apply hasOnly_any_only, existsb_exists in E. destruct E as [c [Hc E]].
  rewrite (H c Hc) in E. discriminate E.
Qed.

Lemma count_cases_split (l : list node) :
  list_sum (map count_cases l)
  = length (topLevelTests l) + list_sum (map count_cases (subSuites l)).
Proof.
  induction l as [| t l IH]; simpl; [reflexivity |].
  destruct t as [name [fn |] o | name tests hooks o]; simpl; rewrite IH; lia.
Qed.

Lemma list_sum_map_ext {T} (f g : T -> nat) l :
  (forall x, In x l -> f x = g x) ->
  list_sum (map f l) = list_sum (map g l).
Proof.
  induction l as [| x l IH]; intros H; simpl; [reflexivity |].
  rewrite (H x (or_introl eq_refl)), IH; [reflexivity |].
  intros y Hy. apply H. right. exact Hy.
Qed.

Lemma list_sum_zero {T} (l : list T) : list_sum (map (fun _ => 0) l) = 0.
Proof. induction l as [| x l IH]; simpl; [reflexivity | exact IH]. Qed.

Lemma existsb_false_In {T} (f : T -> bool) l x :
  existsb f l = false -> In x l -> f x = false.
Proof.
  intros H Hx. destruct (f x) eqn:E; [| reflexivity].
  rewrite <- H. symmetry. apply existsb_exists. exists x. auto.
Qed.

Lemma testCases_all (s : node) only :
  isOnly s only = false -> testCases s only = topLevelTests (node_tests s).
Proof.
  intros H. unfold testCases, topLevelTests. rewrite H. apply filter_ext.
  intros t. simpl. apply andb_true_r.
Qed.

Lemma suite_runnable_unmarked :
  forall s : node,
    any_only s = false -> has_fn s = false ->
    suite_runnable false s = count_cases s.
Proof.
  induction s as [name fn o | name tests hooks o IH] using node_induction;
    intros Hun Hfn.
  - destruct fn; [discriminate Hfn | reflexivity].
  - pose proof (any_only_children _ _ _ _ Hun) as Hch.
    assert (Hi : isOnly (Suite name tests hooks o) false = false).
    { unfold isOnly. simpl. rewrite (unmarked_hasOnly _ Hch). reflexivity. }
    simpl suite_runnable. simpl count_cases. rewrite count_cases_split.
    destruct (hasRunnableTests (Suite name tests hooks o) false) eqn:E.
    + rewrite Hi, (testCases_all _ _ Hi). simpl node_tests. f_equal.
      rewrite <- suite_runnable_subSuites. apply list_sum_map_ext.
      intros x Hx. apply subSuites_In in Hx. destruct Hx as [Hx Hf].
      rewrite Forall_forall in IH. apply (IH x Hx); [apply Hch; exact Hx | exact Hf].
    + unfold hasRunnableTests in E. apply orb_false_iff in E.
      destruct E as [Ecases Esubs].
      rewrite (testCases_all _ _ Hi) in Ecases. simpl node_tests in *.
      destruct (topLevelTests tests); [| discriminate Ecases]. simpl.
      symmetry. rewrite <- (list_sum_zero (subSuites tests)).
      apply list_sum_map_ext. intros x Hx.
      pose proof (existsb_false_In _ _ x Esubs Hx) as Hfx. simpl in Hfx.
      apply subSuites_In in Hx. destruct Hx as [_ Hf].
      destruct x as [n [f |] o' | n ts hs o'];
        [discriminate Hf | reflexivity |].
      simpl in Hfx. rewrite andb_true_r in Hfx. simpl.
      rewrite <- (list_sum_zero ts). apply list_sum_map_ext. intros c Hc.
      pose proof (existsb_false_In _ _ c Hfx Hc) as Hcx.
      destruct c as [n' [f' |] o'' | n' ts' hs' o'']; try discriminate Hcx.
      reflexivity.
Qed.

Lemma forest_runnable_unmarked (tests : list node) :
  (forall t, In t tests -> any_only t = false) ->
  forest_runnable tests = list_sum (map count_cases tests).
Proof.
  intros Hun. unfold forest_runnable, topLevelRun.
  rewrite (unmarked_hasOnly _ Hun), count_cases_split. f_equal.
  - f_equal. rewrite <- (filter_ext (fun _ => true)); [| reflexivity].
    clear. induction (topLevelTests tests) as [| x l IH]; simpl;
      [| rewrite IH]; reflexivity.
  - apply list_sum_map_ext. intros x Hx. apply subSuites_In in Hx.
    apply suite_runnable_unmarked; [apply Hun |]; apply Hx.
Qed.

(** X8. In a forest where nothing is marked [only], no case is skipped: a
    run that returns has counted every case that has a function, in every
    group and at any depth, as passed or as failed. *)
Theorem unmarked_forest_runs_every_case :
  forall (tests : list node) (st : state) r st',
    (forall t, In t tests -> any_only t = false) ->
    runTests tests st = Done r st' ->
    passed r + failed r = list_sum (map count_cases tests).
Proof.
  intros tests st r st' Hun Hrun.
  rewrite <- (forest_runnable_unmarked tests Hun).
  eapply runTests_count. exact Hrun.
Qed.

(** ** The totals and the two filters *)

(** X14. After a run of [runTests] that returns, the totals add up to the
    number of cases that the code's own filter selects, groups that fail
    the check [hasRunnableTests] being left out with all they hold
    ([forest_runnable]): each selected case went to exactly one of the two
    counters, and no other case to any.  The same holds of a call of
    [runSuite] that returns, with [suite_runnable]. *)
Theorem totals_count_selected_cases :
  (forall (tests : list node) (st : state) r st',
      runTests tests st = Done r st' ->
      passed r + failed r = forest_runnable tests) /\
  (forall (s : node) indent only (st : state) r st',
      runSuite s indent only st = Done r st' ->
      passed r + failed r = suite_runnable only s).
Proof.
  split; [exact runTests_count | exact runSuite_count].
Qed.

Lemma unmarked_existsb_only (l : list node) :
  (forall c, In c l -> any_only c = false) -> existsb node_only l = false.
Proof.
  intros H. destruct (existsb node_only l) eqn:E; [| reflexivity].
  apply existsb_exists in E. destruct E as [c [Hc E]].
  apply node_only_any_only in E. rewrite (H c Hc) in E. discriminate E.
Qed.

Lemma spec_runnable_unmarked_list (l : list node) :
  Forall (fun c : node => any_only c = false -> has_fn c = false ->
                          spec_runnable_count false c = count_cases c) l ->
  (forall c, In c l -> any_only c = false) ->
  length (spec_runnable_cases false l)
  + list_sum (map (spec_runnable_count false) l)
  = list_sum (map count_cases l).
Proof.
  induction 1 as [| x l Hx _ IH]; intros Hun; [reflexivity |].
  assert (IH' := IH (fun c Hc => Hun c (or_intror Hc))).
  assert (Hxun := Hun x (or_introl eq_refl)).
  unfold spec_runnable_cases in *.
  cbn [filter map negb orb] in IH' |- *.
  destruct x as [n [f |] o | n ts hs o]; cbn [has_fn andb].
  - simpl in IH' |- *. lia.
  - simpl in IH' |- *. lia.
  - change (list_sum (spec_runnable_count false (Suite n ts hs o)
                       :: map (spec_runnable_count false) l))
      with (spec_runnable_count false (Suite n ts hs o)
            + list_sum (map (spec_runnable_count false) l)).
    change (list_sum (count_cases (Suite n ts hs o) :: map count_cases l))
      with (count_cases (Suite n ts hs o) + list_sum (map count_cases l)).
    rewrite (Hx Hxun eq_refl). lia.
Qed.

Lemma spec_runnable_unmarked :
  forall s : node,
    any_only s = false -> has_fn s = false ->
    spec_runnable_count false s = count_cases s.
Proof.
  induction s as [name fn o | name tests hooks o IH] using node_induction;
    intros Hun Hfn.
  - destruct fn; [discriminate Hfn | reflexivity].
  - pose proof (any_only_children _ _ _ _ Hun) as Hch.
    simpl in Hun. apply orb_false_iff in Hun. destruct Hun as [-> _].
    cbn [spec_runnable_count]. unfold spec_active. cbn [node_only node_tests].
    rewrite (unmarked_existsb_only _ Hch). cbn [orb].
    apply spec_runnable_unmarked_list; assumption.
Qed.

(** X15. In a forest where nothing is marked [only] the code and the
    Filter Resolver of the specification select the same cases: the
    global flag of the resolver is off, and the totals of a run that
    returns add up to the number of runnable cases of the resolver. *)
Theorem unmarked_totals_match_resolver :
  forall (tests : list node) (st : state) r st',
    (forall t, In t tests -> any_only t = false) ->
    runTests tests st = Done r st' ->
    spec_global tests = false /\
    passed r + failed r = spec_runnable_total tests.
Proof.
  intros tests st r st' Hun Hrun.
  assert (Hg : spec_global tests = false).
  { unfold spec_global. destruct (existsb any_only tests) eqn:E; [| reflexivity].
    apply existsb_exists in E. destruct E as [c [Hc E]].
    rewrite (Hun c Hc) in E. discriminate E. }
  split; [exact Hg |].
  rewrite (runTests_count tests st r st' Hrun), (forest_runnable_unmarked tests Hun).
  unfold spec_runnable_total. rewrite Hg. symmetry.
  apply spec_runnable_unmarked_list; [| exact Hun].
  apply Forall_forall. intros c _. apply spec_runnable_unmarked.
Qed.

(** ** A forest marked at the top *)

Lemma rewire_name g (t : node) : node_name (rewire g t) = node_name t.
Proof. destruct t as [n [f |] [|] | n ts hs o]; reflexivity. Qed.

Lemma rewire_only g (t : node) : node_only (rewire g t) = node_only t.
Proof. destruct t as [n [f |] [|] | n ts hs o]; reflexivity. Qed.

Lemma rewire_has_fn g (t : node) : has_fn (rewire g t) = has_fn t.
Proof. destruct t as [n [f |] [|] | n ts hs o]; reflexivity. Qed.

Lemma rewire_has_tests g (t : node) : has_tests (rewire g t) = has_tests t.
Proof. destruct t as [n [f |] [|] | n ts hs o]; reflexivity. Qed.

Lemma rewire_hooks g (t : node) : node_hooks (rewire g t) = node_hooks t.
Proof. destruct t as [n [f |] [|] | n ts hs o]; reflexivity. Qed.

Lemma rewire_tests g (t : node) :
  node_tests (rewire g t) = map (rewire g) (node_tests t).
Proof. destruct t as [n [f |] [|] | n ts hs o]; reflexivity. Qed.

(** A marked case keeps its function. *)
Lemma rewire_marked g (t : node) :
  has_fn t = true -> node_only t = true -> rewire g t = t.
Proof.
  destruct t as [n [f |] [|] | n ts hs o]; simpl; intros H1 H2;
    try discriminate; reflexivity.
Qed.

Lemma existsb_map_pres {T} (f : T -> T) (p : T -> bool) l :
  (forall x, p (f x) = p x) -> existsb p (map f l) = existsb p l.
Proof.
  intros H. induction l as [| x l IH]; simpl; [reflexivity |].
  rewrite H, IH. reflexivity.
Qed.

Lemma filter_map_pres {T} (f : T -> T) (p : T -> bool) l :
  (forall x, p (f x) = p x) -> filter p (map f l) = map f (filter p l).
Proof.
  intros H. induction l as [| x l IH]; simpl; [reflexivity |].
  rewrite H. destruct (p x); simpl; rewrite IH; reflexivity.
Qed.

Lemma hasOnly_rewire g (l : list node) : hasOnly (map (rewire g) l) = hasOnly l.
Proof.
  unfold hasOnly. apply existsb_map_pres. intros x.
  rewrite rewire_only, rewire_has_tests, rewire_tests.
  rewrite (existsb_map_pres (rewire g) node_only); [reflexivity |].
  apply rewire_only.
Qed.

Lemma isOnly_rewire g (s : node) only :
  isOnly (rewire g s) only = isOnly s only.
Proof. unfold isOnly. rewrite rewire_tests, hasOnly_rewire. reflexivity. Qed.

Lemma testCases_rewire g (s : node) only :
  testCases (rewire g s) only = map (rewire g) (testCases s only).
Proof.
  unfold testCases. rewrite rewire_tests, isOnly_rewire.
  apply filter_map_pres. intros x. rewrite rewire_has_fn, rewire_only.
  reflexivity.
Qed.

Lemma testCases_rewire_exclusive g (s : node) :
  testCases (rewire g s) true = testCases s true.
Proof.
  rewrite testCases_rewire.
  rewrite <- (map_id (testCases s true)) at 2. apply map_ext_in.
  intros x Hx. unfold testCases in Hx. apply filter_In in Hx.
  destruct Hx as [_ Hx]. apply andb_true_iff in Hx. destruct Hx as [Hfn Ho].
  unfold isOnly in Ho. rewrite orb_true_r in Ho. simpl in Ho.
  apply rewire_marked; assumption.
Qed.

Lemma subSuites_rewire g (l : list node) :
  subSuites (map (rewire g) l) = map (rewire g) (subSuites l).
Proof.
  unfold subSuites. apply filter_map_pres. intros x. rewrite rewire_has_fn.
  reflexivity.
Qed.

Lemma topLevelTests_rewire g (l : list node) :
  topLevelTests (map (rewire g) l) = map (rewire g) (topLevelTests l).
Proof. unfold topLevelTests. apply filter_map_pres. apply rewire_has_fn. Qed.

Lemma hasRunnableTests_rewire g (s : node) only :
  hasRunnableTests (rewire g s) only = hasRunnableTests s only.
Proof.
  unfold hasRunnableTests.
  rewrite testCases_rewire, length_map, rewire_tests, subSuites_rewire.
  f_equal. apply existsb_map_pres. intros x.
  rewrite rewire_has_tests, rewire_tests.
  rewrite (existsb_map_pres (rewire g) node_only) by apply rewire_only.
  rewrite (existsb_map_pres (rewire g)
             (fun nested => has_fn nested || has_tests nested)).
  - reflexivity.
  - intros y. rewrite rewire_has_fn, rewire_has_tests. reflexivity.
Qed.

Lemma run_testCase_rewire g (s : node) indent (test : node) acc (st : state) :
  run_testCase (rewire g s) indent test acc st = run_testCase s indent test acc st.
Proof.
  unfold run_testCase, suite_try. rewrite rewire_name, rewire_hooks.
  reflexivity.
Qed.

Lemma bind_ext {A B} (m1 m2 : M A) (k1 k2 : A -> M B) st :
  m1 st = m2 st ->
  (forall a st1, m2 st = Done a st1 -> k1 a st1 = k2 a st1) ->
  bind m1 k1 st = bind m2 k2 st.
Proof.
  intros Hm Hk. unfold bind. rewrite Hm.
  destruct (m2 st) as [a st1 | st1]; [apply Hk |]; reflexivity.
Qed.

Lemma for_each_ext {T B} (b1 b2 : T -> B -> M B) l :
  (forall x, In x l -> forall acc st, b1 x acc st = b2 x acc st) ->
  forall acc st, for_each b1 l acc st = for_each b2 l acc st.
Proof.
  induction l as [| x l IH]; intros H acc st; simpl; [reflexivity |].
  unfold bind. rewrite (H x (or_introl eq_refl)).
  destruct (b2 x acc st) as [acc1 st1 | st1]; [| reflexivity].
  apply IH. intros y Hy. apply H. right. exact Hy.
Qed.

Lemma for_each_map {T U B} (f : T -> U) (body : U -> B -> M B) l :
  forall acc st,
    for_each body (map f l) acc st = for_each (fun x => body (f x)) l acc st.
Proof.
  induction l as [| x l IH]; intros acc st; simpl; [reflexivity |].
  unfold bind. destruct (body (f x) acc st) as [acc1 st1 | st1];
    [apply IH | reflexivity].
Qed.

(** A group entered in exclusive mode never calls an unmarked case, at any
    depth below it. *)
Lemma runSuite_rewire g :
  forall (s : node) indent (st : state),
    runSuite (rewire g s) indent true st = runSuite s indent true st.
Proof.
  induction s as [name fn o | name tests hooks o IH] using node_induction;
    intros indent st.
  - destruct fn as [f |]; destruct o; reflexivity.
  - pose proof (hasRunnableTests_rewire g (Suite name tests hooks o) true) as Hr.
    pose proof (testCases_rewire_exclusive g (Suite name tests hooks o)) as Hc.
    pose proof (isOnly_rewire g (Suite name tests hooks o) true) as Hi.
    assert (Hex : isOnly (Suite name tests hooks o) true = true).
    { unfold isOnly. apply orb_true_r. }
    rewrite Hex in Hi.
    pose proof (fun indent test acc st =>
                  run_testCase_rewire g (Suite name tests hooks o) indent test acc st)
      as Hcase.
    change (rewire g (Suite name tests hooks o))
      with (Suite name (map (rewire g) tests) hooks o) in *.
    rewrite !runSuite_unfold, Hr, Hc, Hi, Hex.
    destruct (hasRunnableTests (Suite name tests hooks o) true); simpl;
      [| reflexivity].
    cbv [bind console_log record_event].
    rewrite (for_each_ext
               (run_testCase (Suite name (map (rewire g) tests) hooks o) indent)
               (run_testCase (Suite name tests hooks o) indent))
      by (intros x _ acc st0; apply Hcase).
    match goal with
    | |- context [for_each ?b ?l ?a ?s0] =>
        destruct (for_each b l a s0) as [acc st3 | st3]
    end; [| reflexivity].
    rewrite subSuites_rewire, for_each_map. apply for_each_ext.
    intros x Hx acc0 st0. apply subSuites_In in Hx.
    rewrite Forall_forall in IH. rewrite (IH x (proj1 Hx)). reflexivity.
Qed.

Lemma run_topLevelTest_rewire g (test : node) acc (st : state) :
  has_fn test = true ->
  run_topLevelTest true (rewire g test) acc st
  = run_topLevelTest true test acc st.
Proof.
  intros Hfn. destruct (node_only test) eqn:Ho.
  - rewrite (rewire_marked g test Hfn Ho). reflexivity.
  - unfold run_topLevelTest. rewrite rewire_only, Ho. reflexivity.
Qed.

(** X9. Once the flag of [runTests] is set, because a top-level node or a
    child of a top-level group is marked, no unmarked case is ever called,
    whatever its depth: the run is the same, in what it returns, prints,
    records and does to the host state, when the function of every
    unmarked case is replaced by any other; and so is every call of
    [runSuite] that receives [only = true]. *)
Theorem exclusive_run_never_calls_unmarked_cases :
  forall (g : callback W) (tests : list node) (st : state),
    hasOnly tests = true ->
    runTests (map (rewire g) tests) st = runTests tests st /\
    forall (s : node) indent (st0 : state),
      runSuite (rewire g s) indent true st0 = runSuite s indent true st0.
Proof.
  intros g tests st Htop. split; [| apply runSuite_rewire].
  unfold runTests.
  rewrite hasOnly_rewire, Htop, topLevelTests_rewire, subSuites_rewire.
  apply bind_ext.
  - rewrite for_each_map. apply for_each_ext.
    intros x Hx acc0 st0. apply run_topLevelTest_rewire.
    unfold topLevelTests in Hx. apply filter_In in Hx. apply Hx.
  - intros acc st1 _. apply bind_ext; [| reflexivity].
    rewrite for_each_map. apply for_each_ext.
    intros x _ acc0 st0. apply bind_ext; [apply runSuite_rewire | reflexivity].
Qed.

(** * The registration functions *)

Lemma registration_induction (P : registration W -> Prop) :
  (forall name fn, P (it name fn)) ->
  (forall name fn, P (it_only name fn)) ->
  (forall fn, P (beforeEach fn)) ->
  (forall name body, Forall P body -> P (describe name body)) ->
  (forall name body, Forall P body -> P (describe_only name body)) ->
  forall c, P c.
Proof.
  intros Hit Hio Hbe Hd Hdo. fix IH 1.
  assert (Hall : forall body, Forall P body).
  { intros body. induction body as [| c body IHbody]; constructor.
    - apply IH.
    - exact IHbody. }
  intros [name fn | name fn | name body | name body | fn].
  - apply Hit.
  - apply Hio.
  - apply Hd. apply Hall.
  - apply Hdo. apply Hall.
  - apply Hbe.
Qed.

(** ** The store *)

Lemma update_length {A} (f : A -> A) l : forall i, length (update i f l) = length l.
Proof.
  induction l as [| x l IH]; intros [| i]; simpl; try reflexivity.
  rewrite IH. reflexivity.
Qed.

Lemma update_app_l {A} (f : A -> A) l l' :
  forall i, i < length l -> update i f (l ++ l') = update i f l ++ l'.
Proof.
  induction l as [| x l IH]; intros [| i] Hi; simpl in *; try lia.
  - reflexivity.
  - rewrite IH; [reflexivity | lia].
Qed.

Lemma update_app_r {A} (f : A -> A) l x l' i :
  length l = i -> update i f (l ++ x :: l') = l ++ f x :: l'.
Proof.
  intros <-. induction l as [| y l IH]; simpl; [reflexivity |].
  rewrite IH. reflexivity.
Qed.

Lemma update_update {A} (f g : A -> A) l :
  forall i, update i g (update i f l) = update i (fun x => g (f x)) l.
Proof.
  induction l as [| x l IH]; intros [| i]; simpl; try reflexivity.
  rewrite IH. reflexivity.
Qed.

Lemma update_ext {A} (f g : A -> A) l :
  (forall x, f x = g x) -> forall i, update i f l = update i g l.
Proof.
  intros H. induction l as [| x l IH]; intros [| i]; simpl; try reflexivity.
  - rewrite H. reflexivity.
  - rewrite IH. reflexivity.
Qed.

Lemma update_id {A} (f : A -> A) l :
  (forall x, f x = x) -> forall i, update i f l = l.
Proof.
  intros H. induction l as [| x l IH]; intros [| i]; simpl; try reflexivity.
  - rewrite H. reflexivity.
  - rewrite IH. reflexivity.
Qed.

Lemma extend_nil (o : suite_object W) : extend [] [] o = o.
Proof. destruct o. unfold extend. simpl. rewrite !app_nil_r. reflexivity. Qed.

Lemma extend_extend e1 h1 e2 h2 (o : suite_object W) :
  extend e2 h2 (extend e1 h1 o) = extend (e1 ++ e2) (h1 ++ h2) o.
Proof. unfold extend. simpl. rewrite !app_assoc. reflexivity. Qed.

Lemma grown_nothing cur (r : registry W) :
  currentSuite r = cur -> grown cur [] [] [] r = r.
Proof.
  intros <-. destruct r as [h t [id |]]; unfold grown; simpl.
  - rewrite app_nil_r, (update_id _ _ (@extend_nil)). reflexivity.
  - rewrite !app_nil_r. reflexivity.
Qed.

Lemma grown_grown cur e1 h1 n1 e2 h2 n2 (r : registry W) :
  match cur with Some id => id < length (heap r) | None => True end ->
  grown cur e2 h2 n2 (grown cur e1 h1 n1 r)
  = grown cur (e1 ++ e2) (h1 ++ h2) (n1 ++ n2) r.
Proof.
  destruct cur as [id |]; intros Hid; unfold grown; simpl.
  - rewrite update_app_l by (rewrite update_length; exact Hid).
    rewrite update_update, <- app_assoc.
    rewrite (update_ext _ (extend (e1 ++ e2) (h1 ++ h2))
                        (heap r) (extend_extend e1 h1 e2 h2)).
    reflexivity.
  - rewrite <- !app_assoc. reflexivity.
Qed.

Lemma grown_heap_length cur es hs news (r : registry W) :
  length (heap (grown cur es hs news r)) = length (heap r) + length news.
Proof.
  destruct cur; unfold grown; simpl; rewrite length_app;
    [rewrite update_length |]; reflexivity.
Qed.

Lemma grown_currentSuite cur es hs news (r : registry W) :
  currentSuite (grown cur es hs news r) = cur.
Proof. destruct cur; reflexivity. Qed.

(** ** Reading the store *)

Lemma traverse_app {A B} (f : A -> option B) l1 l2 ys1 ys2 :
  traverse f l1 = Some ys1 -> traverse f l2 = Some ys2 ->
  traverse f (l1 ++ l2) = Some (ys1 ++ ys2).
Proof.
  revert ys1. induction l1 as [| x l1 IH]; intros ys1 H1 H2; simpl in *.
  - injection H1 as <-. exact H2.
  - destruct (f x) as [y |]; [| discriminate H1].
    destruct (traverse f l1) as [ys |]; [| discriminate H1].
    injection H1 as <-. rewrite (IH ys eq_refl H2). reflexivity.
Qed.

(** ** The calls *)

Lemma registers_nothing (run : registry W -> registry W) :
  (forall r, run r = r) -> registers run [] [].
Proof.
  intros Hrun r _. exists [], []. split.
  - rewrite Hrun. symmetry. apply grown_nothing. reflexivity.
  - reflexivity.
Qed.

Lemma registers_then (run1 run2 run : registry W -> registry W) h1 h2 n1 n2 :
  registers run1 h1 n1 -> registers run2 h2 n2 ->
  (forall r, run r = run2 (run1 r)) ->
  registers run (h1 ++ h2) (n1 ++ n2).
Proof.
  intros H1 H2 Hrun r Hr.
  destruct (H1 r Hr) as [e1 [N1 [Hr1 Hread1]]].
  assert (Hcur : currentSuite (run1 r) = currentSuite r).
  { rewrite Hr1. apply grown_currentSuite. }
  assert (Hlen : length (heap (run1 r)) = length (heap r) + length N1).
  { rewrite Hr1. apply grown_heap_length. }
  assert (Hr' : open_in_store (run1 r)).
  { unfold open_in_store in *. rewrite Hcur.
    destruct (currentSuite r); [lia | exact I]. }
  destruct (H2 (run1 r) Hr') as [e2 [N2 [Hr2 Hread2]]].
  exists (e1 ++ e2), (N1 ++ N2). split.
  - rewrite Hrun, Hr2, Hcur, Hr1. apply grown_grown. exact Hr.
  - intros pre post fuel Hpre Hfuel. rewrite length_app in Hfuel.
    apply traverse_app.
    + rewrite <- app_assoc. apply Hread1; [exact Hpre | lia].
    + replace (pre ++ (N1 ++ N2) ++ post) with ((pre ++ N1) ++ N2 ++ post)
        by (rewrite <- !app_assoc; reflexivity).
      apply Hread2; [rewrite length_app, Hlen, Hpre; reflexivity | lia].
Qed.

Lemma registers_exec_all (calls : list (registration W)) :
  Forall (fun c => registers (exec c) (hooks_of [c]) (register c)) calls ->
  registers (exec_all calls) (hooks_of calls) (registered calls).
Proof.
  induction 1 as [| c calls Hc _ IH].
  - apply registers_nothing. reflexivity.
  - replace (hooks_of (c :: calls)) with (hooks_of [c] ++ hooks_of calls)
      by (unfold hooks_of; simpl; rewrite app_nil_r; reflexivity).
    change (registered (c :: calls)) with (register c ++ registered calls).
    apply registers_then with (run1 := exec c) (run2 := exec_all calls);
      [exact Hc | exact IH | reflexivity].
Qed.

Lemma registers_it name fn only :
  registers (call_it name fn only) [] [Test name fn only : node].
Proof.
  intros r _. exists [ECase name fn only], [].
  split; [| intros pre post fuel _ _; destruct fuel; reflexivity].
  unfold call_it, push_entry, grown.
  destruct r as [h t [id |]]; simpl; rewrite !app_nil_r; reflexivity.
Qed.

Lemma registers_beforeEach fn :
  registers (call_beforeEach fn) [fn] ([] : list node).
Proof.
  intros r _. exists [], []. split; [| reflexivity].
  unfold call_beforeEach, grown.
  destruct r as [h t [id |]]; simpl; rewrite !app_nil_r; reflexivity.
Qed.

Lemma registers_describe name only (body : list (registration W)) :
  registers (exec_all body) (hooks_of body) (registered body) ->
  registers (fun r => close_suite (currentSuite r)
                                  (exec_all body (open_suite name only r)))
            []
            [Suite name (registered body) (hooks_of body) only].
Proof.
  intros Hbody r Hr.
  set (b := length (heap r)).
  set (obj0 := mkSuiteObject name [] (@nil (callback W)) (currentSuite r) only).
  set (kept := match currentSuite r with
               | Some id => update id (extend [ERef b] []) (heap r)
               | None => heap r
               end).
  assert (Hkept : length kept = b).
  { unfold kept. destruct (currentSuite r); [apply update_length | reflexivity]. }
  assert (Hopen : heap (open_suite name only r) = kept ++ [obj0] /\
                  currentSuite (open_suite name only r) = Some b /\
                  reg_tests (open_suite name only r)
                  = match currentSuite r with
                    | Some _ => reg_tests r
                    | None => reg_tests r ++ [ERef b]
                    end).
  { unfold open_suite, push_entry, kept, open_in_store in *. fold b. fold obj0.
    destruct (currentSuite r) as [id |]; simpl.
    - rewrite update_app_l by exact Hr. auto.
    - auto. }
  destruct Hopen as [Hheap [Hcur Htests]].
  assert (Hr0 : open_in_store (open_suite name only r)).
  { unfold open_in_store. rewrite Hcur, Hheap, length_app, Hkept. simpl. lia. }
  destruct (Hbody _ Hr0) as [es [news [Hrun Hread]]].
  exists [ERef b], (extend es (hooks_of body) obj0 :: news). split.
  - rewrite Hrun, Hcur. unfold grown, close_suite. simpl.
    rewrite Hheap, Htests, (update_app_r _ _ _ _ _ Hkept), <- app_assoc. simpl.
    unfold kept. destruct (currentSuite r); reflexivity.
  - intros pre post fuel Hpre Hfuel. simpl in Hfuel.
    destruct fuel as [| fuel]; [lia |]. simpl.
    rewrite nth_error_app2 by (rewrite Hpre; unfold b; lia).
    replace (b - length pre) with 0 by (rewrite Hpre; unfold b; lia). simpl.
    replace (pre ++ extend es (hooks_of body) obj0 :: news ++ post)
      with ((pre ++ [extend es (hooks_of body) obj0]) ++ news ++ post)
      by (rewrite <- app_assoc; reflexivity).
    rewrite Hread; [reflexivity | | lia].
    rewrite length_app, Hheap, length_app, Hkept, Hpre. reflexivity.
Qed.

Lemma exec_registers :
  forall c : registration W,
    registers (exec c) (hooks_of [c]) (register c).
Proof.
  induction c as [name fn | name fn | fn | name body IH | name body IH]
    using registration_induction.
  - apply registers_it.
  - apply registers_it.
  - apply registers_beforeEach.
  - apply (registers_describe name false body).
    apply registers_exec_all. exact IH.
  - apply (registers_describe name true body).
    apply registers_exec_all. exact IH.
Qed.

Lemma load_registers (calls : list (registration W)) :
  registers (exec_all calls) (hooks_of calls) (registered calls).
Proof.
  apply registers_exec_all. apply Forall_forall. intros c _.
  apply exec_registers.
Qed.

(** X1. The objects that [describe], [it], [beforeEach] and their [only]
    variants build by mutation, whatever the calls and their nesting, read
    as the forest [registered]: every reference leads to an object, within
    the fuel; each case and each group stands where its call was made,
    under the innermost [describe] around it, with the mark of its
    variant; each group holds the hooks of the [beforeEach] calls of its
    own body, in the order of the calls; a [beforeEach] outside any
    [describe] leaves no trace; and [currentSuite] is [null] again. *)
Theorem registration_builds_the_forest :
  forall calls : list (registration W),
    forest (load calls) = Some (registered calls) /\
    currentSuite (load calls) = None.
Proof.
  intros calls.
  destruct (load_registers calls empty_registry I) as [es [news [Hrun Hread]]].
  unfold load. rewrite Hrun. unfold forest, grown. simpl. split; [| reflexivity].
  specialize (Hread [] [] (length news) eq_refl (le_n _)).
  simpl in Hread. rewrite app_nil_r in Hread. exact Hread.
Qed.

(** ** Nothing is taken back *)

Lemma nth_error_update_same {A} (f : A -> A) l :
  forall i x, nth_error l i = Some x -> nth_error (update i f l) i = Some (f x).
Proof.
  induction l as [| y l IH]; intros [| i] x H; simpl in *; try discriminate H.
  - injection H as ->. reflexivity.
  - apply IH. exact H.
Qed.

Lemma nth_error_update_other {A} (f : A -> A) l :
  forall i j, i <> j -> nth_error (update i f l) j = nth_error l j.
Proof.
  induction l as [| y l IH]; intros [| i] [| j] H; simpl; try reflexivity.
  - contradiction H. reflexivity.
  - apply IH. intros E. apply H. rewrite E. reflexivity.
Qed.

(** X2. Registration only adds.  Whatever calls are made from a registry
    whose [currentSuite] is [null] or an object of the store,
    [currentSuite] ends as it started; the module-level [tests] keeps its
    elements, in place, and receives new ones at its end, and only when no
    suite is open; every suite object that existed is still there under
    the same number, with the same name, parent and mark; the object that
    is open may have received tests and hooks at the end of its arrays,
    and no other object has changed. *)
Theorem registration_only_adds :
  forall (calls : list (registration W)) (r : registry W),
    open_in_store r ->
    currentSuite (exec_all calls r) = currentSuite r /\
    (exists es,
        reg_tests (exec_all calls r) = reg_tests r ++ es /\
        (currentSuite r <> None -> es = [])) /\
    (forall id o,
        nth_error (heap r) id = Some o ->
        exists es hs,
          nth_error (heap (exec_all calls r)) id = Some (extend es hs o) /\
          (currentSuite r <> Some id -> es = [] /\ hs = [])).
Proof.
  intros calls r Hr.
  destruct (load_registers calls r Hr) as [es [news [Hrun _]]].
  rewrite Hrun. unfold open_in_store in Hr.
  destruct (currentSuite r) as [cur |] eqn:Hcur; unfold grown; simpl.
  - split; [reflexivity |]. split.
    + exists []. rewrite app_nil_r. auto.
    + intros id o Ho.
      assert (Hid : id < length (heap r)).
      { apply nth_error_Some. rewrite Ho. discriminate. }
      rewrite nth_error_app1 by (rewrite update_length; exact Hid).
      destruct (Nat.eq_dec cur id) as [-> | Hne].
      * exists es, (hooks_of calls). split.
        -- apply nth_error_update_same. exact Ho.
        -- intros H. contradiction H. reflexivity.
      * exists [], []. rewrite extend_nil. split; [| auto].
        rewrite nth_error_update_other by exact Hne. exact Ho.
  - split; [reflexivity |]. split.
    + exists es. split; [reflexivity |]. intros H. contradiction H. reflexivity.
    + intros id o Ho. exists [], []. rewrite extend_nil. split; [| auto].
      rewrite nth_error_app1; [exact Ho |].
      apply nth_error_Some. rewrite Ho. discriminate.
Qed.

(** * Hooks and the host state *)


Lemma run_hooks_world sname (hooks : list (callback W)) :
  forall k (st st1 : state),
    run_hooks sname k hooks st = Done None st1 ->
    world st1 = fold_left (fun w h => fst (h w)) hooks (world st).
Proof.
  induction hooks as [| hook hooks IH]; intros k st st1 Hrun; simpl in *.
  - injection Hrun as <-. reflexivity.
  - cbv [bind record_event await] in Hrun. simpl in Hrun.
    destruct (snd (hook (world st))) as [err |]; [discriminate Hrun |].
    apply IH in Hrun. exact Hrun.
Qed.

(** X12. Callbacks run one after the other on the host state: when the
    hooks of the group resolve, the function of the case is called on the
    state left by those hooks, run in registration order from the state
    the iteration found, and the iteration leaves the state the function
    made, whether the function resolves or throws. *)
Theorem case_sees_the_hooks_effects :
  forall suite indent name fn o acc (st st0 : state),
    run_hooks (node_name suite) 0 (node_hooks suite)
              (log (StartTest name) st) = Done None st0 ->
    world (final (run_testCase suite indent (Test name (Some fn) o) acc st))
    = fst (fn (fold_left (fun w h => fst (h w)) (node_hooks suite) (world st))).
Proof.
  intros suite indent name fn o acc st st0 Hhooks.
  pose proof (run_hooks_world _ _ _ _ _ Hhooks) as Hw. simpl in Hw.
  rewrite <- Hw.
  cbv [run_testCase suite_try bind record_event]. simpl node_name.
  rewrite Hhooks. cbv [call_fn bind record_event await]. simpl.
  destruct (snd (fn (world st0))) as [[| m] |]; reflexivity.
Qed.

(** * A case without function *)

Lemma for_each_stuck {T B} (body : T -> B -> M B) l x :
  In x l -> (forall acc (st : state), ~ completed (body x acc st)) ->
  forall acc st, ~ completed (for_each body l acc st).
Proof.
  induction l as [| y l IH]; intros Hin Hx acc st [a [s H]]; [destruct Hin |].
  simpl in H. apply bind_Done in H. destruct H as [acc1 [st1 [H1 H2]]].
  destruct Hin as [-> | Hin].
  - apply (Hx acc st). eexists _, _. exact H1.
  - apply (IH Hin Hx acc1 st1). eexists _, _. exact H2.
Qed.

(** X16. A case registered without a function is not filtered as a case:
    it falls among the sub-suites, and [runSuite] throws as soon as it is
    called on it.  So no run of a forest that has such a case at top level
    returns, and no call of [runSuite] on a group that holds one and
    passes the check [hasRunnableTests] returns. *)
Theorem case_without_function_stops_the_run :
  (forall (tests : list node) name o (st : state),
      In (Test name None o) tests -> ~ completed (runTests tests st)) /\
  (forall (s : node) name o indent only (st : state),
      In (Test name None o) (node_tests s) ->
      hasRunnableTests s only = true ->
      ~ completed (runSuite s indent only st)).
Proof.
  assert (Hsub : forall (l : list node) name o,
             In (Test name None o) l -> In (Test name None o) (subSuites l)).
  { intros l name o H. unfold subSuites. apply filter_In. auto. }
  assert (Hbody : forall name o indent only (acc : result) (st : state),
             ~ completed ((subResult <- runSuite (Test name None o) indent only ;;
                           ret (add_result acc subResult)) st)).
  { intros name o indent only acc st [a [s H]]. discriminate H. }
  split.
  - intros tests name o st Hin [r [st' Hrun]].
    apply runTests_inv in Hrun. destruct Hrun as [acc [st1 [st2 [_ [H2 _]]]]].
    eapply for_each_stuck; [| | eexists _, _; exact H2].
    + apply Hsub. exact Hin.
    + intros acc0 st0. apply Hbody.
  - intros s name o indent only st Hin Hrunnable [r [st' Hrun]].
    destruct s as [n f o' | n ts hs o']; [discriminate Hrun |].
    rewrite runSuite_unfold, Hrunnable in Hrun. simpl in Hrun.
    apply bind_Done in Hrun. destruct Hrun as [u1 [st1 [_ Hrun]]].
    apply bind_Done in Hrun. destruct Hrun as [u2 [st2 [_ Hrun]]].
    apply bind_Done in Hrun. destruct Hrun as [acc [st3 [_ Hrun]]].
    eapply for_each_stuck; [| | eexists _, _; exact Hrun].
    + apply Hsub. exact Hin.
    + intros acc0 st0. apply Hbody.
Qed.

(** * Aborted runs *)

Lemma bind_Abort {A B} (m : M A) (k : A -> M B) st s :
  bind m k st = Abort s ->
  m st = Abort s \/ exists a st1, m st = Done a st1 /\ k a st1 = Abort s.
Proof.
  unfold bind. destruct (m st) as [a st1 | st1]; intros H.
  - right. exists a, st1. auto.
  - left. injection H as ->. reflexivity.
Qed.

Lemma cases_at_child d (s c : node) x :
  In c (node_tests s) -> In x (cases_at (S d) c) -> In x (cases_at d s).
Proof.
  destruct s as [n f o | n ts hs o]; simpl; intros Hc Hx; [destruct Hc |].
  apply in_flat_map. exists c. auto.
Qed.

Lemma cases_at_case d (t : node) : has_fn t = true -> In (d, t) (cases_at d t).
Proof.
  destruct t as [n [f |] o | n ts hs o]; intros H; try discriminate H.
  left. reflexivity.
Qed.

Lemma for_each_out {T B} (body : T -> B -> M B) l :
  (forall x, In x l -> forall acc (st : state) acc' st',
        body x acc st = Done acc' st' -> exists t, out st' = out st ++ t) ->
  forall acc st acc' st',
    for_each body l acc st = Done acc' st' -> exists t, out st' = out st ++ t.
Proof.
  induction l as [| x l IH]; intros Hbody acc st acc' st' Hrun; simpl in Hrun.
  - injection Hrun as _ <-. exists []. rewrite app_nil_r. reflexivity.
  - apply bind_Done in Hrun. destruct Hrun as [acc1 [st1 [H1 H2]]].
    apply (Hbody x (or_introl eq_refl)) in H1. destruct H1 as [t1 Ht1].
    apply IH in H2; [| intros y Hy; apply Hbody; right; exact Hy].
    destruct H2 as [t2 Ht2].
    exists (t1 ++ t2). rewrite Ht2, Ht1, app_assoc. reflexivity.
Qed.

Section Aborted.
Variable forest : list node.

Lemma unrecorded_marker_later (a b c : state) :
  (exists l, out b = out a ++ l) ->
  unrecorded_marker forest b c -> unrecorded_marker forest a c.
Proof.
  intros [l Hl] [lines [line [Ho Hm]]]. exists (l ++ lines), line.
  rewrite Ho, Hl, <- !app_assoc. auto.
Qed.

Lemma for_each_Abort {T B} (body : T -> B -> M B) l :
  (forall x, In x l -> forall acc st acc' st',
        body x acc st = Done acc' st' -> exists t, out st' = out st ++ t) ->
  (forall x, In x l -> forall acc st s,
        body x acc st = Abort s -> unrecorded_marker forest st s) ->
  forall acc st s,
    for_each body l acc st = Abort s -> unrecorded_marker forest st s.
Proof.
  induction l as [| x l IH]; intros Hdone Habort acc st s Hrun; simpl in Hrun.
  - discriminate Hrun.
  - apply bind_Abort in Hrun. destruct Hrun as [H | [acc1 [st1 [H1 H]]]].
    + eapply Habort; [left; reflexivity | exact H].
    + apply unrecorded_marker_later with (b := st1).
      * eapply Hdone; [left; reflexivity | exact H1].
      * eapply IH; [| | exact H].
        -- intros y Hy. apply Hdone. right. exact Hy.
        -- intros y Hy. apply Habort. right. exact Hy.
Qed.

Lemma run_testCase_out suite indent (test : node) acc (st : state) acc' st' :
  has_fn test = true ->
  run_testCase suite indent test acc st = Done acc' st' ->
  exists t, out st' = out st ++ t.
Proof.
  intros Hfn Hrun.
  destruct (run_testCase_spec suite indent test acc st Hfn)
    as [st1 [seg [Ho [_ [_ [_ [_ H]]]]]]].
  destruct H as [[_ [_ H]] | [[m [_ H]] | [_ H]]]; rewrite H in Hrun;
    try discriminate Hrun; injection Hrun as _ <-; simpl; rewrite Ho;
    eexists; reflexivity.
Qed.

Lemma run_topLevelTest_out isOnly (test : node) acc (st : state) acc' st' :
  has_fn test = true ->
  run_topLevelTest isOnly test acc st = Done acc' st' ->
  exists t, out st' = out st ++ t.
Proof.
  intros Hfn Hrun.
  destruct (run_topLevelTest_report isOnly test acc st Hfn)
    as [tr [rest [Ho _]]].
  rewrite Hrun in Ho. exists tr. exact Ho.
Qed.

Lemma runSuite_out (s : node) indent only (st : state) r st' :
  runSuite s indent only st = Done r st' -> exists t, out st' = out st ++ t.
Proof.
  intros Hrun.
  destruct (runSuite_report s indent only st) as [tr [rest [Ho _]]].
  rewrite Hrun in Ho. exists tr. exact Ho.
Qed.

Lemma run_testCase_Abort suite indent (test : node) acc (st s : state) :
  has_fn test = true -> In (indent, test) (flat_map (cases_at 0) forest) ->
  run_testCase suite indent test acc st = Abort s ->
  unrecorded_marker forest st s.
Proof.
  intros Hfn Hin Hrun.
  destruct (run_testCase_spec suite indent test acc st Hfn)
    as [st1 [seg [Ho [Hi [_ [_ [_ H]]]]]]].
  destruct H as [[_ [_ H]] | [[m [_ H]] | [_ H]]]; rewrite H in Hrun;
    try discriminate Hrun.
  injection Hrun as <-. eexists [], _. simpl. rewrite Ho.
  split; [reflexivity |]. exists indent, test.
  rewrite Nat.add_1_r. auto.
Qed.

Lemma run_topLevelTest_Abort isOnly (test : node) acc (st s : state) :
  has_fn test = true -> In (0, test) (flat_map (cases_at 0) forest) ->
  run_topLevelTest isOnly test acc st = Abort s ->
  unrecorded_marker forest st s.
Proof.
  intros Hfn Hin Hrun. destruct (isOnly && negb (node_only test)) eqn:Hskip.
  - rewrite (run_topLevelTest_skip _ _ _ _ Hskip) in Hrun. discriminate Hrun.
  - destruct (run_topLevelTest_spec isOnly test acc st Hfn Hskip)
      as [st1 [Ho [Hi [_ [_ H]]]]].
    destruct H as [[_ H] | [[m [_ H]] | [_ H]]]; rewrite H in Hrun;
      try discriminate Hrun.
    injection Hrun as <-. eexists [], _. simpl. rewrite Ho.
    split; [reflexivity |]. exists 0, test. auto.
Qed.

Lemma runSuite_Abort :
  forall (s : node) d,
    has_fn s = false ->
    (forall k c, In (k, c) (cases_at d s) ->
                 In (k, c) (flat_map (cases_at 0) forest) /\ has_fn c = true) ->
    forall only st s',
      runSuite s (S d) only st = Abort s' -> unrecorded_marker forest st s'.
Proof.
  induction s as [name fn o | name tests hooks o IH] using node_induction;
    intros d Hfn Hok only st s' Hrun.
  - destruct (Hok _ _ (or_introl eq_refl)) as [_ H]. rewrite H in Hfn.
    discriminate Hfn.
  - rewrite runSuite_unfold in Hrun.
    destruct (hasRunnableTests (Suite name tests hooks o) only); simpl in Hrun;
      [| discriminate Hrun].
    apply bind_Abort in Hrun. destruct Hrun as [H | [u1 [st1 [H1 Hrun]]]];
      [discriminate H |].
    apply bind_Abort in Hrun. destruct Hrun as [H | [u2 [st2 [H2 Hrun]]]];
      [discriminate H |].
    unfold console_log in H1. injection H1 as _ <-.
    unfold record_event in H2. injection H2 as _ <-.
    apply unrecorded_marker_later
      with (b := log (EnterSuite name) (print (repeat_string "  " (S d) ^^ name) st)).
    { eexists. reflexivity. }
    apply bind_Abort in Hrun. destruct Hrun as [H | [acc [st3 [Hcases Hrun]]]].
    + eapply for_each_Abort; [| | exact H].
      * intros x Hx acc0 st0 acc' st0'. apply run_testCase_out.
        eapply testCases_has_fn. exact Hx.
      * intros x Hx acc0 st0 s0.
        pose proof (testCases_has_fn _ _ _ Hx) as Hxfn.
        apply run_testCase_Abort; [exact Hxfn |].
        apply Hok. unfold testCases in Hx. apply filter_In in Hx.
        apply (cases_at_child d (Suite name tests hooks o) x _ (proj1 Hx)).
        apply cases_at_case. exact Hxfn.
    + apply unrecorded_marker_later with (b := st3).
      { eapply for_each_out; [| exact Hcases].
        intros x Hx acc0 st0 acc' st0'. apply run_testCase_out.
        eapply testCases_has_fn. exact Hx. }
      eapply for_each_Abort; [| | exact Hrun].
      * intros x Hx acc0 st0 acc' st0' Hbody.
        apply bind_Done in Hbody. destruct Hbody as [r0 [st4 [Hsub Hret]]].
        injection Hret as _ <-. eapply runSuite_out. exact Hsub.
      * intros x Hx acc0 st0 s0 Hbody. apply subSuites_In in Hx.
        destruct Hx as [Hx Hf].
        apply bind_Abort in Hbody. destruct Hbody as [H | [r [st4 [_ H]]]];
          [| discriminate H].
        rewrite Nat.add_1_r in H.
        rewrite Forall_forall in IH. eapply (IH x Hx (S d) Hf); [| exact H].
        intros k c Hc. apply Hok.
        apply (cases_at_child d (Suite name tests hooks o) x _ Hx Hc).
Qed.
End Aborted.

Lemma runTests_Abort (tests : list node) (st s : state) :
  Forall with_functions tests ->
  runTests tests st = Abort s -> unrecorded_marker tests st s.
Proof.
  intros Hfns Hrun. rewrite Forall_forall in Hfns.
  assert (Hok : forall t, In t tests -> forall k c, In (k, c) (cases_at 0 t) ->
                  In (k, c) (flat_map (cases_at 0) tests) /\ has_fn c = true).
  { intros t Ht k c Hc. split; [| apply (Hfns t Ht k c Hc)].
    apply in_flat_map. exists t. auto. }
  unfold runTests in Hrun.
  apply bind_Abort in Hrun. destruct Hrun as [H | [acc [st1 [H1 Hrun]]]].
  - eapply (for_each_Abort tests); [| | exact H].
    + intros x Hx acc0 st0 acc' st0'. apply run_topLevelTest_out.
      unfold topLevelTests in Hx. apply filter_In in Hx. apply Hx.
    + intros x Hx acc0 st0 s0. unfold topLevelTests in Hx.
      apply filter_In in Hx. destruct Hx as [Hx Hfn].
      apply run_topLevelTest_Abort; [exact Hfn |].
      apply (Hok x Hx). apply cases_at_case. exact Hfn.
  - apply unrecorded_marker_later with (b := st1).
    { eapply for_each_out; [| exact H1].
      intros x Hx acc0 st0 acc' st0'. apply run_topLevelTest_out.
      unfold topLevelTests in Hx. apply filter_In in Hx. apply Hx. }
    apply bind_Abort in Hrun. destruct Hrun as [H | [total [st2 [_ Hrun]]]].
    + eapply (for_each_Abort tests); [| | exact H].
      * intros x Hx acc0 st0 acc' st0' Hbody.
        apply bind_Done in Hbody. destruct Hbody as [r0 [st4 [Hsub Hret]]].
        injection Hret as _ <-. eapply runSuite_out. exact Hsub.
      * intros x Hx acc0 st0 s0 Hbody. apply subSuites_In in Hx.
        destruct Hx as [Hx Hf].
        apply bind_Abort in Hbody. destruct Hbody as [H' | [r [st4 [_ H']]]];
          [| discriminate H'].
        eapply runSuite_Abort; [exact Hf | apply (Hok x Hx) | exact H'].
    + unfold bind in Hrun. rewrite report_spec in Hrun. discriminate Hrun.
Qed.

(** What an aborted run printed is an initial part of the lines of the
    cases and of the groups: the summary is not reached. *)
Lemma runTests_Abort_lines (tests : list node) (st s : state) :
  runTests tests st = Abort s ->
  exists tr rest tops subs,
    out s = out st ++ tr /\
    tr ++ rest = tops ++ concat subs /\
    Forall2 top_line (topLevelRun tests) tops /\
    Forall2 (suite_report 1 (hasOnly tests)) (subSuites tests) subs.
Proof.
  intros Hrun.
  assert (P : produces (@out W)
                ((acc <- for_each (run_topLevelTest (hasOnly tests))
                                  (topLevelTests tests) (mkResult 0 0) ;;
                  for_each (fun suite acc' =>
                              suiteResult <- runSuite suite 1 (hasOnly tests) ;;
                              ret (add_result acc' suiteResult))
                           (subSuites tests) acc) st) st
                (cat (cat_each (fun (x : node) t =>
                                  if hasOnly tests && negb (node_only x)
                                  then t = []
                                  else exists line, t = [line] /\ top_line x line)
                               (topLevelTests tests))
                     (cat_each (suite_report 1 (hasOnly tests))
                               (subSuites tests)))).
  { assert (Hsub : forall x : node,
               exists t, suite_report 1 (hasOnly tests) x t).
    { intros x. destruct (runSuite_report x 1 (hasOnly tests) st)
        as [tr [rest [_ [Hform _]]]].
      exists (tr ++ rest). exact Hform. }
    apply produces_bind.
    - apply produces_for_each.
      + intros x _. destruct (hasOnly tests && negb (node_only x)).
        * exists []. reflexivity.
        * eexists [_]. eexists. split; [reflexivity |]. left. reflexivity.
      + intros x Hx acc0 st0. apply run_topLevelTest_report.
        unfold topLevelTests in Hx. apply filter_In in Hx. apply Hx.
    - apply cat_each_inhabited. intros x _. apply Hsub.
    - intros acc st1 _. apply produces_for_each.
      + intros x _. apply Hsub.
      + intros x _ acc0 st0. eapply produces_weaken.
        * apply produces_bind with (G2 := eq []).
          -- apply runSuite_report.
          -- exists []. reflexivity.
          -- intros r0 st3 _. apply produces_ret.
        * intros t [t1 [t2 [-> [Ht <-]]]]. rewrite app_nil_r. exact Ht. }
  assert (Hloops : (acc <- for_each (run_topLevelTest (hasOnly tests))
                                    (topLevelTests tests) (mkResult 0 0) ;;
                    for_each (fun suite acc' =>
                                suiteResult <- runSuite suite 1 (hasOnly tests) ;;
                                ret (add_result acc' suiteResult))
                             (subSuites tests) acc) st = Abort s).
  { unfold runTests in Hrun. unfold bind in *.
    destruct (for_each (run_topLevelTest (hasOnly tests)) _ _ st)
      as [acc st1 | st1]; [| exact Hrun].
    destruct (for_each _ (subSuites tests) acc st1) as [total st2 | st2];
      [| exact Hrun].
    rewrite report_spec in Hrun. discriminate Hrun. }
  rewrite Hloops in P. destruct P as [tr [rest [Ho [Hform _]]]].
  destruct Hform as [t1 [t2 [Happ [H1 [subs [H2 ->]]]]]].
  apply cat_each_skipping in H1.
  exists tr, rest, t1, subs. auto.
Qed.

(** X13. In a forest where every case has a function, a run that is
    aborted stopped in a [catch] block.  What it printed is an initial
    part of the lines of the cases and of the groups, so without the
    summary, and its last line is the line of a failure of a case of the
    forest, indented as the depth of that case asks, with the index
    [failureIndex] left behind; the indices recorded before the run being
    below the [failureIndex] it found, no record carries that index. *)
Theorem aborted_run_leaves_unrecorded_marker :
  forall (tests : list node) (st st' : state),
    Forall with_functions tests ->
    runTests tests st = Abort st' ->
    (exists lines line rest tops subs,
        out st' = out st ++ lines ++ [line] /\
        failure_marker tests (failureIndex st') line /\
        (lines ++ [line]) ++ rest = tops ++ concat subs /\
        Forall2 top_line (topLevelRun tests) tops /\
        Forall2 (suite_report 1 (hasOnly tests)) (subSuites tests) subs) /\
    (Forall (fun f => index f < failureIndex st) (failures st) ->
     Forall (fun f => index f < failureIndex st') (failures st')).
Proof.
  intros tests st st' Hfns Hrun. split.
  - destruct (runTests_Abort tests st st' Hfns Hrun)
      as [lines [line [Ho Hmark]]].
    destruct (runTests_Abort_lines tests st st' Hrun)
      as [tr [rest [tops [subs [Ho' [Hform [Htops Hsubs]]]]]]].
    rewrite Ho in Ho'. apply app_inv_head in Ho'. subst tr.
    exists lines, line, rest, tops, subs. auto.
  - intros Hold.
    destruct (runTests_numbered tests st) as [new [Hnew [Hidx Hnext]]].
    rewrite Hrun in Hnew, Hnext. simpl in Hnew, Hnext.
    rewrite Hnew, Hnext. apply Forall_app. split.
    + eapply Forall_impl; [| exact Hold]. intros f Hf. simpl in Hf. lia.
    + apply Forall_forall. intros f Hf.
      assert (Hin : In (index f) (map index new)) by (apply in_map; exact Hf).
      rewrite Hidx in Hin. apply in_seq in Hin. lia.
Qed.

End Proofs.

(** * The claims on concrete forests *)

(** The forests used below, as the calls that register them. *)
Example scenario_registered :
  registered [it "a" (Some passes);
              describe "G" [it "b" (Some (fails_with "boom")); it "c" (Some passes)]]
  = scenario.
Proof. reflexivity. Qed.

Example forest_deep_only_registered :
  registered [it "a" (Some passes);
              describe "G1" [describe "G2" [it_only "x" (Some passes)]]]
  = forest_deep_only.
Proof. reflexivity. Qed.

Example group_hook_undefined_registered :
  registered [describe "G" [beforeEach throws_undefined; beforeEach passes;
                            it "c1" (Some passes)]]
  = [group_hook_undefined].
Proof. reflexivity. Qed.

Example group_two_hooks_registered :
  registered [describe "G" [beforeEach passes;
                            describe "N" [it "d" (Some passes)];
                            it "c1" (Some passes);
                            beforeEach passes]]
  = [group_two_hooks].
Proof. reflexivity. Qed.

(** C1, at [forest_deep_only].  A case marked [only] at depth three is in
    the forest, but the flag computed by [runTests] looks at the top-level
    nodes and their children only: it is not set, and the plain top-level
    case [a] runs. *)
Theorem C1_deep_only_is_missed :
  existsb any_only forest_deep_only = true /\
  hasOnly forest_deep_only = false /\
  runTests forest_deep_only (initial tt)
  = Done (mkResult 2 0)
         (mkState tt
                  ["✓ a"; "  G1"; "    G2"; "      ✓ x"; nl ^^ "  2 passing"]
                  1 []
                  [StartTest "a"; CallFn "a"; EnterSuite "G1"; EnterSuite "G2";
                   StartTest "x"; CallFn "x"]).
Proof. repeat split. Qed.

(** C2, as stated, fails at [group_grandchild]: the group is entered
    without the mode inherited, neither it nor any of its children is
    marked, and exclusive mode is active all the same. *)
Lemma C2_counterexample :
  ~ (forall (tests : list (node unit)) (s : node unit) only,
        invoked tests s only ->
        (isOnly s only = true <->
         node_only s = true \/ only = true \/
         exists c, In c (node_tests s) /\ node_only c = true)).
Proof.
  intros H.
  destruct (H [group_grandchild] group_grandchild false) as [H1 _].
  - apply (invoked_top [group_grandchild] group_grandchild). left. reflexivity.
  - destruct (H1 eq_refl) as [H2 | [H2 | [c [Hc H2]]]]; try discriminate H2.
    destruct Hc as [<- | [<- | []]]; discriminate H2.
Qed.

(** At [group_grandchild] the plain case [a] is skipped. *)
Example group_grandchild_run :
  runSuite group_grandchild 1 false (initial tt)
  = Done (mkResult 1 0)
         (mkState tt ["  G"; "    H"; "      ✓ x"] 1 []
                  [EnterSuite "G"; EnterSuite "H"; StartTest "x"; CallFn "x"]).
Proof. reflexivity. Qed.

(** The theorem of C2 at [group_marked_case], entered in exclusive mode:
    only the marked case [b] runs. *)
Lemma C2_witness :
  invoked [group_marked_case] group_marked_case true /\
  isOnly group_marked_case true = true /\
  testCases group_marked_case true = [Test "b" (Some passes) true] /\
  visits (trace (final (runSuite group_marked_case 1 true (initial tt))))
  = visits (trace (initial tt))
    ++ EnterSuite "G" :: map start_of [Test "b" (Some passes) true]
    ++ flat_map (suite_order true) (subSuites (node_tests group_marked_case)).
Proof.
  assert (Hinv : invoked [group_marked_case] group_marked_case true).
  { apply (invoked_top [group_marked_case] group_marked_case). left. reflexivity. }
  destruct (C2_exclusive_mode unit [group_marked_case] group_marked_case true Hinv)
    as [Hiff Hact].
  assert (Hex : isOnly group_marked_case true = true).
  { apply Hiff. right. left. reflexivity. }
  split; [exact Hinv |]. split; [exact Hex |].
  destruct (Hact Hex) as [Hown Hrun]. split; [exact Hown |].
  destruct (Hrun 1 (initial tt) _ _ eq_refl) as [_ Hdone].
  destruct (Hdone eq_refl) as [Hv _]. exact Hv.
Defined.

(** C3, at [group_hollow] and [group_deep_exclusive].  The check looks one
    level down.  A group whose subtree holds no case prints its name
    because its child has a child; and, in inherited exclusive mode, a
    group whose marked case is three levels down prints nothing and does
    not run it. *)
Theorem C3_shallow_runnable_check :
  has_runnable_content false group_hollow = false /\
  hasOnly [group_hollow] = false /\
  runSuite group_hollow 1 false (initial tt)
  = Done (mkResult 0 0) (mkState tt ["  G"] 1 [] [EnterSuite "G"]) /\
  out (final (runTests [group_hollow] (initial tt)))
  = ["  G"; nl ^^ "  0 passing"] /\
  has_runnable_content true group_deep_exclusive = true /\
  hasOnly [Test "x" (Some passes) true; group_deep_exclusive] = true /\
  runSuite group_deep_exclusive 1 true (initial tt)
  = Done (mkResult 0 0) (initial tt) /\
  runTests [Test "x" (Some passes) true; group_deep_exclusive] (initial tt)
  = Done (mkResult 1 0)
         (mkState tt ["✓ x"; nl ^^ "  1 passing"] 1 []
                  [StartTest "x"; CallFn "x"]).
Proof. repeat split. Qed.

(** C4, at [forest_deep_only] and at [forest_marked_beside_deep].  The
    totals are not the number of runnable cases of the Filter Resolver of
    the specification.  With a case marked at depth three the resolver
    selects that case alone, and the run counts two cases, the plain
    top-level case among them; with a marked top-level case beside a group
    whose marked case is three levels down the resolver selects both, and
    the run counts one. *)
Theorem C4_totals_miss_resolver_count :
  spec_runnable_total forest_deep_only = 1 /\
  (exists st',
      runTests forest_deep_only (initial tt) = Done (mkResult 2 0) st' /\
      out st' = ["✓ a"; "  G1"; "    G2"; "      ✓ x"; nl ^^ "  2 passing"]) /\
  spec_runnable_total forest_marked_beside_deep = 2 /\
  (exists st',
      runTests forest_marked_beside_deep (initial tt)
      = Done (mkResult 1 0) st' /\
      out st' = ["✓ x"; nl ^^ "  1 passing"]).
Proof.
  split; [reflexivity |]. split; [eexists; split; reflexivity |].
  split; [reflexivity |]. eexists; split; reflexivity.
Qed.


(** [CaseA, GroupB, CaseC] runs as [A, C], then [B] and its contents. *)
Example forest_interleaved_order :
  visits (trace (final (runTests forest_interleaved (initial tt))))
  = [StartTest "A"; StartTest "C"; EnterSuite "B"; StartTest "b1"].
Proof. reflexivity. Qed.

(** C6, at [group_hook_undefined].  The first hook throws [undefined]: the
    second hook and the function of [c1] are not called, but the [catch]
    block throws in its turn when it reads the message; the case is not
    counted, no record is made, and the run is aborted after the line of
    the failure. *)
Theorem C6_undefined_hook_aborts :
  runSuite group_hook_undefined 1 false (initial tt)
  = Abort (mkState tt ["  G"; "    1) c1"] 1 []
                   [EnterSuite "G"; StartTest "c1"; CallHook "G" 0]) /\
  runTests [group_hook_undefined] (initial tt)
  = Abort (mkState tt ["  G"; "    1) c1"] 1 []
                   [EnterSuite "G"; StartTest "c1"; CallHook "G" 0]).
Proof. split; reflexivity. Qed.

(** Hooks [h1; h2] and a case [c1], beside a nested group without hooks:
    [h1], [h2], the function of [c1]; nothing before the nested case. *)
Example group_two_hooks_trace :
  trace (final (runSuite group_two_hooks 1 false (initial tt)))
  = [EnterSuite "G"; StartTest "c1"; CallHook "G" 0; CallHook "G" 1; CallFn "c1";
     EnterSuite "N"; StartTest "d"; CallFn "d"].
Proof. reflexivity. Qed.

(** C8, as stated, fails at [forest_bare]: the value thrown has no
    message; the record's message is [undefined], but the detail string,
    and the line of the trailing block, say [No message]. *)
Lemma C8_counterexample :
  snd (throws_bare tt) = Some (Raised None) /\
  exists f,
    failures (final (runTests forest_bare (initial tt))) = [f] /\
    message f = "undefined" /\
    details f = "AssertionError [ERR_ASSERTION]: No message" /\
    details f <> assertion_prefix ^^ "undefined" /\
    In ("      AssertionError [ERR_ASSERTION]: No message")
       (out (final (runTests forest_bare (initial tt)))) /\
    ~ In ("      " ^^ assertion_prefix ^^ "undefined")
         (out (final (runTests forest_bare (initial tt)))).
Proof.
  split; [reflexivity |]. eexists. split; [reflexivity |].
  repeat split; try discriminate.
  - simpl. tauto.
  - simpl. intros H.
    repeat (destruct H as [H | H]; [discriminate H |]). exact H.
Qed.

(** The theorem of C8 at a case of a group that fails with [boom]. *)
Lemma C8_witness :
  suite_try (Suite "G" [Test "b" (Some (fails_with "boom")) false] [] false)
            (Test "b" (Some (fails_with "boom")) false)
            (log (StartTest "b") (initial tt))
  = Done (Some (Raised (Some "boom")))
         (mkState tt [] 1 [] [StartTest "b"; CallFn "b"]) /\
  exists f st',
    run_testCase (Suite "G" [Test "b" (Some (fails_with "boom")) false] [] false) 2
                 (Test "b" (Some (fails_with "boom")) false) (mkResult 0 0) (initial tt)
    = Done (mkResult 0 1) st' /\
    failures st' = [f] /\ message f = "boom" /\
    details f = assertion_prefix ^^ "boom".
Proof.
  split; [reflexivity |].
  destruct (proj1 (C8_failure_message unit)
                  (Suite "G" [Test "b" (Some (fails_with "boom")) false] [] false) 2
                  (Test "b" (Some (fails_with "boom")) false) (mkResult 0 0)
                  (initial tt) _ (Some "boom") eq_refl)
    as [f [st' [Hrun [Hf [_ [_ [Hm _]]]]]]].
  exists f, st'. split; [exact Hrun |]. split; [exact Hf |].
  apply (Hm "boom" eq_refl). discriminate.
Defined.

(** C10, as stated, fails at [forest_empty_message]: the value thrown has
    a message field, the empty string, and the detail string is not the
    label followed by that message: it ends with [No message]. *)
Lemma C10_counterexample :
  snd (fails_with "" tt) = Some (Raised (Some "")) /\
  exists f,
    failures (final (runTests forest_empty_message (initial tt))) = [f] /\
    details f = "AssertionError [ERR_ASSERTION]: No message" /\
    details f <> "AssertionError [ERR_ASSERTION]: " ^^ "".
Proof.
  split; [reflexivity |]. eexists. split; [reflexivity |].
  split; [reflexivity | discriminate].
Qed.

(** The theorem of C10 at a top-level case that throws a value without
    message. *)
Lemma C10_witness :
  call_fn (Test "t" (Some throws_bare) false) (log (StartTest "t") (initial tt))
  = Done (Some (Raised None)) (mkState tt [] 1 [] [StartTest "t"; CallFn "t"]) /\
  exists f st',
    run_topLevelTest false (Test "t" (Some throws_bare) false) (mkResult 0 0) (initial tt)
    = Done (mkResult 0 1) st' /\
    failures st' = [f] /\
    details f = "AssertionError [ERR_ASSERTION]: No message" /\
    message f = "undefined".
Proof.
  split; [reflexivity |].
  destruct (proj2 (C10_failure_details unit) false
                  (Test "t" (Some throws_bare) false) (mkResult 0 0)
                  (initial tt) _ None eq_refl eq_refl)
    as [f [st' [Hrun [Hf [[s [Hs _]] | [_ [Hd [Hm _]]]]]]]].
  - discriminate Hs.
  - exists f, st'. auto.
Defined.

(** The theorem of C9 at [scenario]. *)
Lemma C9_witness :
  (forall w, snd (passes w) = None) /\
  (forall w, snd (fails_with "boom" w) = Some (Raised (Some "boom"))) /\
  failureIndex (initial tt) = 1 /\ failures (initial tt) = [] /\
  exists st',
    runTests scenario (initial tt) = Done (mkResult 2 1) st' /\
    out st' = out (initial tt) ++
              ["✓ a"; "  G"; "    1) b"; "    ✓ c";
               nl ^^ "  2 passing"; "  1 failing";
               nl ^^ "  1) b:" ^^ nl;
               "      AssertionError [ERR_ASSERTION]: boom"].
Proof.
  split; [reflexivity |]. split; [reflexivity |].
  split; [reflexivity |]. split; [reflexivity |].
  apply (C9_concrete_scenario unit passes (fails_with "boom") passes (initial tt));
    reflexivity.
Defined.

(** The theorem of C7 at [group_signing]: [h1], [h2] and the action, for
    [c1] and again for [c2]; then the nested group, where the case [d]
    comes after the hook of its own group only. *)
Lemma C7_witness :
  runSuite group_signing 1 false (initial [])
  = Done (mkResult 3 0) (final (runSuite group_signing 1 false (initial []))) /\
  hasRunnableTests group_signing false = true /\
  world (final (runSuite group_signing 1 false (initial [])))
  = ["h1"; "h2"; "c1"; "h1"; "h2"; "c2"; "hn"; "d"] /\
  snd (says "h1" []) = None /\ snd (says "h2" (fst (says "h1" []))) = None /\
  case_effect [says "h1"; says "h2"] (Test "c1" (Some (says "c1")) false) []
  = fst (says "c1" (fst (says "h2" (fst (says "h1" []))))).
Proof.
  assert (Hrun : runSuite group_signing 1 false (initial [])
                 = Done (mkResult 3 0)
                        (final (runSuite group_signing 1 false (initial []))))
    by (vm_compute; reflexivity).
  split; [exact Hrun |]. split; [reflexivity |]. split.
  - rewrite (proj2 (proj2 (proj2 (C7_hooks_before_each_case (list string))))
                   group_signing 1 false (initial []) _ _ Hrun eq_refl).
    vm_compute. reflexivity.
  - split; [reflexivity |]. split; [reflexivity |].
    apply (proj1 (proj2 (proj2 (C7_hooks_before_each_case (list string))))
                 (says "h1") (says "h2") "c1" (says "c1") false []);
      reflexivity.
Defined.

(** In the forest of C3 whose marked case is three levels down, that case
    is not among those the filter selects. *)
Example forest_runnable_deep_exclusive :
  forest_runnable [Test "x" (Some passes) true; group_deep_exclusive] = 1.
Proof. reflexivity. Qed.

(** * The further properties on concrete forests *)

(** The objects built by the calls of [calls_sample], and the forest they
    read as. *)
Example calls_sample_store :
  load calls_sample
  = mkRegistry
      [mkSuiteObject "G" [ERef 1; ECase "c1" (Some passes) false] [passes; passes]
                     None false;
       mkSuiteObject "N" [ECase "d" (Some passes) false] [] (Some 0) false]
      [ECase "a" (Some passes) false; ERef 0]
      None.
Proof. reflexivity. Qed.

(** The calls of [calls_sample] made while [G] is open: the case and the
    new group are pushed on [G], after the case it held; [F], the
    module-level [tests] and [currentSuite] are as they were. *)
Example calls_sample_in_open_suite :
  exec_all calls_sample registry_open
  = mkRegistry
      [mkSuiteObject "F" [ECase "f" (Some passes) false] [] None false;
       mkSuiteObject "G" [ECase "c0" (Some passes) false;
                          ECase "a" (Some passes) false; ERef 2]
                     [passes] None false;
       mkSuiteObject "G" [ERef 3; ECase "c1" (Some passes) false]
                     [passes; passes] (Some 1) false;
       mkSuiteObject "N" [ECase "d" (Some passes) false] [] (Some 2) false]
      [ECase "a0" (Some passes) false; ERef 0; ERef 1]
      (Some 1).
Proof. reflexivity. Qed.

(** The theorem of X2 at [registry_open], where two suites exist and one
    of them is open. *)
Lemma registration_only_adds_witness :
  open_in_store registry_open /\
  currentSuite (exec_all calls_sample registry_open)
  = currentSuite registry_open /\
  (exists es,
      reg_tests (exec_all calls_sample registry_open)
      = reg_tests registry_open ++ es /\
      (currentSuite registry_open <> None -> es = [])) /\
  (forall id o,
      nth_error (heap registry_open) id = Some o ->
      exists es hs,
        nth_error (heap (exec_all calls_sample registry_open)) id
        = Some (extend es hs o) /\
        (currentSuite registry_open <> Some id -> es = [] /\ hs = [])).
Proof.
  assert (Hopen : open_in_store registry_open) by (vm_compute; lia).
  split; [exact Hopen |].
  apply (registration_only_adds unit calls_sample registry_open Hopen).
Defined.

(** The theorem of X4 at [scenario]. *)
Lemma failing_total_counts_records_witness :
  runTests scenario (initial tt)
  = Done (mkResult 2 1) (final (runTests scenario (initial tt))) /\
  map index (failures (final (runTests scenario (initial tt)))) = seq 1 1.
Proof.
  assert (Hrun : runTests scenario (initial tt)
                 = Done (mkResult 2 1) (final (runTests scenario (initial tt))))
    by (vm_compute; reflexivity).
  split; [exact Hrun |].
  destruct (failing_total_counts_records unit scenario (initial tt) _ _ Hrun)
    as [_ H].
  apply (H eq_refl eq_refl).
Defined.


Lemma scenario_gentle : Forall gentle_node scenario.
Proof.
  repeat constructor; intros w; discriminate.
Qed.

(** The theorem of X7 at [scenario], where a case fails. *)
Lemma run_returns_with_summary_witness :
  Forall gentle_node scenario /\
  exists r st',
    runTests scenario (initial tt) = Done r st' /\
    exists before, out st' = before ++ report_lines r (failures st').
Proof.
  split; [exact scenario_gentle |].
  apply (run_returns_with_summary unit scenario (initial tt) scenario_gentle).
Defined.

Lemma scenario_unmarked : forall t, In t scenario -> any_only t = false.
Proof.
  intros t [<- | [<- | []]]; reflexivity.
Qed.

(** The theorem of X8 at [scenario]: its three cases are counted. *)
Lemma unmarked_forest_runs_every_case_witness :
  (forall t, In t scenario -> any_only t = false) /\
  runTests scenario (initial tt)
  = Done (mkResult 2 1) (final (runTests scenario (initial tt))) /\
  2 + 1 = list_sum (map count_cases scenario).
Proof.
  assert (Hrun : runTests scenario (initial tt)
                 = Done (mkResult 2 1) (final (runTests scenario (initial tt))))
    by (vm_compute; reflexivity).
  split; [exact scenario_unmarked |]. split; [exact Hrun |].
  apply (unmarked_forest_runs_every_case unit scenario (initial tt) _ _
           scenario_unmarked Hrun).
Defined.

(** The theorem of X9 at the forest of [group_marked_case], with the
    unmarked cases [a] and [x] made to throw [undefined], which would
    abort the run if one of them were called. *)
Lemma exclusive_run_never_calls_unmarked_cases_witness :
  hasOnly [group_marked_case] = true /\
  map (rewire throws_undefined) [group_marked_case]
  = [Suite "G" [Test "a" (Some throws_undefined) false;
                Test "b" (Some passes) true;
                Suite "H" [Test "x" (Some throws_undefined) false] [] false]
           [] false] /\
  runTests (map (rewire throws_undefined) [group_marked_case]) (initial tt)
  = runTests [group_marked_case] (initial tt) /\
  forall (s : node unit) indent (st0 : state unit),
    runSuite (rewire throws_undefined s) indent true st0
    = runSuite s indent true st0.
Proof.
  split; [reflexivity |]. split; [reflexivity |].
  apply (exclusive_run_never_calls_unmarked_cases unit throws_undefined
           [group_marked_case] (initial tt) eq_refl).
Defined.

Lemma forest_interleaved_quiet : Forall quiet_node forest_interleaved.
Proof.
  repeat constructor; intros w; reflexivity.
Qed.

(** The theorem of X10 at [forest_interleaved], where every case passes. *)
Lemma clean_run_reports_no_failure_witness :
  Forall quiet_node forest_interleaved /\
  forest_runnable forest_interleaved = 3 /\
  exists st',
    runTests forest_interleaved (initial tt)
    = Done (mkResult (forest_runnable forest_interleaved) 0) st' /\
    failures st' = failures (initial tt) /\
    failureIndex st' = failureIndex (initial tt) /\
    exists before,
      out st' = before ++ [nl ^^ "  "
                              ^^ string_of_nat (forest_runnable forest_interleaved)
                              ^^ " passing"].
Proof.
  split; [exact forest_interleaved_quiet |]. split; [reflexivity |].
  apply (clean_run_reports_no_failure unit forest_interleaved (initial tt)
           forest_interleaved_quiet).
Defined.


(** The theorem of X12 at [group_counting], from the state 5: the hooks
    make it 7 and the case doubles it. *)
Lemma case_sees_the_hooks_effects_witness :
  run_hooks "G" 0 (node_hooks group_counting)
            (log (StartTest "c") (initial 5))
  = Done None (mkState 7 [] 1 []
                       [StartTest "c"; CallHook "G" 0; CallHook "G" 1]) /\
  world (final (run_testCase group_counting 1
                             (Test "c" (Some (fun w => (2 * w, None))) false)
                             (mkResult 0 0) (initial 5)))
  = 14.
Proof.
  split; [reflexivity |].
  apply (case_sees_the_hooks_effects nat group_counting 1 "c"
           (fun w => (2 * w, None)) false (mkResult 0 0) (initial 5) _ eq_refl).
Defined.

Lemma forest_aborting_with_functions : Forall with_functions forest_aborting.
Proof.
  repeat constructor; intros d c [H | []]; injection H as _ <-; reflexivity.
Qed.

(** The theorem of X13 at [forest_aborting]: the run stops at the second
    case, after the line of failure 2; only failure 1 is recorded. *)
Lemma aborted_run_leaves_unrecorded_marker_witness :
  Forall with_functions forest_aborting /\
  runTests forest_aborting (initial tt)
  = Abort (mkState tt ["  1) a"; "  2) u"] 2
                   [mkFailure 1 "a" "boom" 0
                              "AssertionError [ERR_ASSERTION]: boom"]
                   [StartTest "a"; CallFn "a"; StartTest "u"; CallFn "u"]) /\
  (exists lines line rest tops subs,
      ["  1) a"; "  2) u"] = out (initial tt) ++ lines ++ [line] /\
      failure_marker forest_aborting 2 line /\
      (lines ++ [line]) ++ rest = tops ++ concat subs /\
      Forall2 top_line (topLevelRun forest_aborting) tops /\
      Forall2 (suite_report 1 (hasOnly forest_aborting))
              (subSuites forest_aborting) subs) /\
  (Forall (fun f => index f < failureIndex (initial tt))
          (failures (initial tt)) ->
   Forall (fun f => index f < 2)
          [mkFailure 1 "a" "boom" 0 "AssertionError [ERR_ASSERTION]: boom"]).
Proof.
  split; [exact forest_aborting_with_functions |].
  split; [reflexivity |].
  apply (aborted_run_leaves_unrecorded_marker unit forest_aborting (initial tt)
           _ forest_aborting_with_functions eq_refl).
Defined.

(** The theorem of X14 at [scenario]: the totals, 2 and 1, add up to its
    three cases. *)
Lemma totals_count_selected_cases_witness :
  runTests scenario (initial tt)
  = Done (mkResult 2 1) (final (runTests scenario (initial tt))) /\
  2 + 1 = forest_runnable scenario.
Proof.
  assert (Hrun : runTests scenario (initial tt)
                 = Done (mkResult 2 1) (final (runTests scenario (initial tt))))
    by (vm_compute; reflexivity).
  split; [exact Hrun |].
  apply (proj1 (totals_count_selected_cases unit) scenario (initial tt) _ _ Hrun).
Defined.

(** The theorem of X15 at [scenario]. *)
Lemma unmarked_totals_match_resolver_witness :
  (forall t, In t scenario -> any_only t = false) /\
  runTests scenario (initial tt)
  = Done (mkResult 2 1) (final (runTests scenario (initial tt))) /\
  spec_global scenario = false /\
  2 + 1 = spec_runnable_total scenario.
Proof.
  assert (Hrun : runTests scenario (initial tt)
                 = Done (mkResult 2 1) (final (runTests scenario (initial tt))))
    by (vm_compute; reflexivity).
  split; [exact scenario_unmarked |]. split; [exact Hrun |].
  apply (unmarked_totals_match_resolver unit scenario (initial tt) _ _
           scenario_unmarked Hrun).
Defined.

(** A group with a case without function and a case that passes: the
    second runs, then the first is taken for a group and the call is
    aborted, before any summary. *)
Example group_bare_case_run :
  runSuite group_bare_case 1 false (initial tt)
  = Abort (mkState tt ["  G"; "    ✓ q"] 1 []
                   [EnterSuite "G"; StartTest "q"; CallFn "q"]) /\
  runTests [group_bare_case] (initial tt)
  = Abort (mkState tt ["  G"; "    ✓ q"] 1 []
                   [EnterSuite "G"; StartTest "q"; CallFn "q"]).
Proof. split; reflexivity. Qed.

(** The theorem of X16 at [group_bare_case]. *)
Lemma case_without_function_stops_the_run_witness :
  In (Test "p" None false) (node_tests group_bare_case) /\
  hasRunnableTests group_bare_case false = true /\
  ~ completed (runSuite group_bare_case 1 false (initial tt)).
Proof.
  assert (Hin : In (Test "p" None false) (node_tests group_bare_case))
    by (left; reflexivity).
  split; [exact Hin |]. split; [reflexivity |].
  apply (proj2 (case_without_function_stops_the_run unit)
               group_bare_case "p" false 1 false (initial tt) Hin eq_refl).
Defined.
